(** * Navigation reconciliation of [packages/docutils/lib/nav.ts]

    A shallow embedding of [updateNav], the function that synchronises the
    [nav] tree of an [mkdocs.yml] document with the Markdown pages that
    TypeDoc generated under its [commands] output directory, and the
    properties of that function. *)

From Stdlib Require Import String Ascii List Bool Arith ZArith Lia.
From stdpp Require Import base decidable option list strings.

Local Open Scope string_scope.
Local Open Scope list_scope.

(** ** Data model *)

Module Model.

(** Modelled from the spec: the type [MkDocsYml] of [./model] is not part of
    the sources at hand.  An entry of the navigation tree is either a plain
    string (the path of a page) or a single-key mapping from a section title
    to a nested sequence of entries. *)
#[warnings="-register-all"]
Inductive NavEntry : Type :=
| NavPage (path : string)
| NavSection (title : string) (children : list NavEntry).

(** The parsed [mkdocs.yml]: the two keys that [updateNav] reads, each of
    them optional in the document. *)
Record MkDocsYml : Type := mkMkDocsYml {
  docs_dir : option string;
  nav : option (list NavEntry)
}.

(** A directory entry as [fs.readdir (dir, {withFileTypes: true})] yields it. *)
Record Dirent : Type := mkDirent {
  name : string;
  isFile : bool
}.

(** [UpdateNavOpts], after the defaults of the parameter list are applied and
    the locations of the two documents are resolved. *)
Record UpdateNavOpts : Type := mkOpts {
  referenceHeader : string;
  noReferenceHeader : bool;
  dryRun : bool
}.

Definition DEFAULT_REFERENCE_HEADER : string := "Reference".

Definition defaultOpts : UpdateNavOpts :=
  {| referenceHeader := DEFAULT_REFERENCE_HEADER;
     noReferenceHeader := false;
     dryRun := false |}.

Definition with_dryRun (b : bool) (o : UpdateNavOpts) : UpdateNavOpts :=
  {| referenceHeader := referenceHeader o;
     noReferenceHeader := noReferenceHeader o;
     dryRun := b |}.

(** Structural equality of entries is decidable. *)
Fixpoint NavEntry_eq_dec (a b : NavEntry) {struct a} : {a = b} + {a <> b}.
Proof.
  decide equality;
    first [ apply String.string_dec | apply (List.list_eq_dec NavEntry_eq_dec) ].
Defined.

#[export] Instance NavEntry_eq_decision : EqDecision NavEntry := NavEntry_eq_dec.

End Model.

(** ** The library functions that [updateNav] calls *)

(** The functions of lodash used by [nav.ts], by their documented behaviour on
    the values of the data model: arrays are lists, and a JavaScript value of
    the navigation tree is a [NavEntry]. *)
Module Lodash.

Import Model.

(** [_.toString]: a string is itself, a plain object is ["[object Object]"]. *)
Definition toString (v : NavEntry) : string :=
  match v with
  | NavPage s => s
  | NavSection _ _ => "[object Object]"
  end.

(** [_.startsWith (string, target)]: the value is converted with
    [_.toString] first, then the slice of the length of [target] at position
    0 is compared with [target]. *)
Definition startsWith (v : NavEntry) (target : string) : bool :=
  String.prefix target (toString v).

Definition isString (v : NavEntry) : bool :=
  match v with NavPage _ => true | NavSection _ _ => false end.

Definition isObject (v : NavEntry) : bool :=
  match v with NavPage _ => false | NavSection _ _ => true end.

(** [_.has (object, key)] for a key that is a plain property name (a section
    title without the path syntax of lodash): the object [{title: children}]
    has exactly the own key [title]; a string has no own key that is a
    section title. *)
Definition has (v : NavEntry) (key : string) : bool :=
  match v with
  | NavPage _ => false
  | NavSection title _ => String.eqb title key
  end.

(** The keys that [_.has] takes as a property name and not as a path: a key
    without [.] and without [[] is never a deep path for lodash ([isKey]),
    and [_.has] is then the test for an own property.  A property that
    speaks of the mapping that [has] finds holds for such keys. *)
Definition plainKey (key : string) : bool :=
  forallb (fun c => negb (Ascii.eqb c ".") && negb (Ascii.eqb c "["))
    (list_ascii_of_string key).

(** [object[key]]: the value under [key], [undefined] ([None]) otherwise. *)
Definition get (v : NavEntry) (key : string) : option (list NavEntry) :=
  match v with
  | NavPage _ => None
  | NavSection title children =>
      if String.eqb title key then Some children else None
  end.

(** [object[key] = value] on an object that has the own key [key], as the
    mapping that [has] finds for a plain key does. *)
Definition set (v : NavEntry) (key : string) (value : list NavEntry) : NavEntry :=
  match v with
  | NavPage s => NavPage s
  | NavSection title children =>
      if String.eqb title key then NavSection title value
      else NavSection title children
  end.

Section Collections.
Context {A : Type}.

(** [_.overEvery ([p, q])] *)
Definition overEvery (ps : list (A -> bool)) (x : A) : bool :=
  forallb (fun p => p x) ps.

(** [_.every (arr, pred)] *)
Definition every (arr : list A) (pred : A -> bool) : bool :=
  forallb pred arr.

(** [_.findIndex (arr, pred)]: the index of the first element the
    predicate accepts, [-1] when there is none. *)
Fixpoint findIndexFrom (i : Z) (arr : list A) (pred : A -> bool) : Z :=
  match arr with
  | [] => (-1)%Z
  | x :: rest => if pred x then i else findIndexFrom (i + 1)%Z rest pred
  end.

Definition findIndex (arr : list A) (pred : A -> bool) : Z :=
  findIndexFrom 0%Z arr pred.

(** [_.partition (arr, pred)]: every element is pushed, in order, to the
    first array when the predicate accepts it and to the second otherwise. *)
Fixpoint partition (arr : list A) (pred : A -> bool) : list A * list A :=
  match arr with
  | [] => ([], [])
  | x :: rest =>
      let '(yes, no) := partition rest pred in
      if pred x then (x :: yes, no) else (yes, x :: no)
  end.

Context `{EqDecision A}.

(** [baseDifference (array, values)]: the elements of [array] that are not
    in [values]. *)
Definition baseDifference (array values : list A) : list A :=
  List.filter (fun x => negb (bool_decide (x ∈ values))) array.

(** [baseUniq (array)]: the first occurrence of every element, in order. *)
Fixpoint baseUniqFrom (seen array : list A) : list A :=
  match array with
  | [] => []
  | x :: rest =>
      if bool_decide (x ∈ seen) then baseUniqFrom seen rest
      else x :: baseUniqFrom (x :: seen) rest
  end.

Definition baseUniq (array : list A) : list A := baseUniqFrom [] array.

(** [_.xor (a, b)]: the unique values that are in exactly one of the two
    arrays, those of [a] first. *)
Definition xor (a b : list A) : list A :=
  baseUniq (baseDifference a b ++ baseDifference b a).

End Collections.

End Lodash.

(** The functions of [node:path] (POSIX flavour) used by [nav.ts].  An
    absolute, normalised path, as [path.resolve] returns it, is the list of
    its segments: [/proj/docs] is [["proj"; "docs"]]. *)
Module NodePath.

Definition AbsPath : Type := list string.

(** [path.join (dir, segment)] of an absolute directory and one segment. *)
Definition joinAbs (dir : AbsPath) (segment : string) : AbsPath :=
  dir ++ [segment].

Fixpoint stripCommon (from to : AbsPath) : AbsPath * AbsPath :=
  match from, to with
  | f :: from', t :: to' =>
      if String.eqb f t then stripCommon from' to' else (from, to)
  | _, _ => (from, to)
  end.

(** [path.relative (from, to)] of two absolute, normalised paths: one [..]
    for every segment of [from] below the common ancestor, then the
    segments of [to] below it; the empty string when both are the same. *)
Definition relative (from to : AbsPath) : string :=
  let '(up, down) := stripCommon from to in
  String.concat "/" (List.repeat ".." (List.length up) ++ down).

(** [path.join (dir, name)] of a normalised relative directory, as
    [relative] returns it, and the name of a directory entry (one segment,
    neither [.] nor [..]): empty arguments are skipped. *)
Definition join (dir name : string) : string :=
  if String.eqb dir "" then name else dir ++ "/" ++ name.

(** [String.prototype.endsWith] *)
Definition endsWith (s suffix : string) : bool :=
  let n := String.length s - String.length suffix in
  String.eqb (String.substring n (String.length suffix) s) suffix.

End NodePath.

(** ** [updateNav] *)

Module Nav.

Import Model.

(** What [updateNav] sends to the logger tagged [mkdocs-nav]. *)
Inductive LogEntry : Type :=
| WarnNoReferenceDocs (commandDir : NodePath.AbsPath)
| DebugNewRefFilepaths (newRefFilepaths : list string)
| DebugDifference (symmetricDiff : list NavEntry)
| DebugReplacedSection (header : string) (res : list NavEntry)
| DebugAddedSection (header : string) (newRefFilepaths : list string)
| DebugReplacedNav (nav : list NavEntry)
| DebugYaml (yaml : MkDocsYml)
| SuccessUpdated (relMkDocsYmlPath : string)
| InfoNoChanges (relMkDocsYmlPath : string).

Definition isWarning (e : LogEntry) : bool :=
  match e with WarnNoReferenceDocs _ => true | _ => false end.

(** The state [updateNav] acts on: the object parsed from [mkdocs.yml],
    which it mutates in place, the log, and the files written with
    [safeWriteFile], each with its path and its content. *)
Record State : Type := mkState {
  mkDocsYml : MkDocsYml;
  logged : list LogEntry;
  written : list (string * MkDocsYml)
}.

Definition M (A : Type) : Type := State -> A * State.

#[export] Instance M_ret : MRet M := fun A x st => (x, st).
#[export] Instance M_bind : MBind M :=
  fun A B f m st => let '(x, st') := m st in f x st'.

Definition log (e : LogEntry) : M unit :=
  fun st => (tt, {| mkDocsYml := mkDocsYml st;
                    logged := logged st ++ [e];
                    written := written st |}).

Definition readDoc : M MkDocsYml := fun st => (mkDocsYml st, st).

(** [mkDocsYml.nav = value] *)
Definition assignNav (value : list NavEntry) : M unit :=
  fun st => (tt, {| mkDocsYml := {| docs_dir := docs_dir (mkDocsYml st);
                                     nav := Some value |};
                    logged := logged st;
                    written := written st |}).

(** [mkDocsYml.nav![idx][header] = res]: the array under [nav] is updated
    in place, at an index that exists. *)
Definition assignSection (idx : nat) (header : string) (res : list NavEntry)
  : M unit :=
  fun st =>
    let doc := mkDocsYml st in
    let nav' :=
      match nav doc with
      | Some entries =>
          match entries !! idx with
          | Some entry => Some (<[idx := Lodash.set entry header res]> entries)
          | None => Some entries
          end
      | None => None
      end in
    (tt, {| mkDocsYml := {| docs_dir := docs_dir doc; nav := nav' |};
            logged := logged st;
            written := written st |}).

(** [stringifyYaml] followed by [safeWriteFile (path, yaml, true)]: the
    content written is the document as it is in memory at that point. *)
Definition safeWriteFile (path : string) (yaml : MkDocsYml) : M unit :=
  fun st => (tt, {| mkDocsYml := mkDocsYml st;
                    logged := logged st;
                    written := written st ++ [(path, yaml)] |}).

(** What the collaborators of [updateNav] hand to it: the locations that
    lines 35 to 75 resolve, and the listing of the [commands] directory. *)
Record Env : Type := mkEnv {
  mkDocsYmlPath : string;
  relMkDocsYmlPath : string;
  typeDocOutDir : NodePath.AbsPath;
  mkDocsDocsDir : NodePath.AbsPath;
  commandDocFileEnts : list Dirent
}.

(** Line 43: [findRefDictIndex]. *)
Definition findRefDictIndex (referenceHeader : string) (nav : list NavEntry) : Z :=
  Lodash.findIndex nav
    (Lodash.overEvery [Lodash.isObject; fun v => Lodash.has v referenceHeader]).

(** Line 82: [partitionRefArray]. *)
Definition partitionRefArray (relReferenceDir : string) (arr : list NavEntry)
  : list NavEntry * list NavEntry :=
  Lodash.partition arr (fun v => Lodash.startsWith v (relReferenceDir ++ "/")).

(** Line 154: [isStringArray], on a value that is an array. *)
Definition isStringArray (value : list NavEntry) : bool :=
  Lodash.every value Lodash.isString.

(** Lines 98 to 102: the paths of the Markdown files of the listing. *)
Fixpoint collectRefFilepaths (relCommandDir : string) (ents : list Dirent)
  : list string :=
  match ents with
  | [] => []
  | ent :: rest =>
      if isFile ent && NodePath.endsWith (name ent) ".md"
      then NodePath.join relCommandDir (name ent)
             :: collectRefFilepaths relCommandDir rest
      else collectRefFilepaths relCommandDir rest
  end.

(** Lines 111 to 118: the array that is partitioned, the nested list of the
    reference section when there is one and the top-level tree otherwise.
    A section found under a value that is missing partitions nothing. *)
Definition partitionTarget (referenceHeader : string) (nav : list NavEntry)
  (refDictIdx : Z) : list NavEntry :=
  if (0 <=? refDictIdx)%Z then
    match nav !! Z.to_nat refDictIdx with
    | Some refDict => default [] (Lodash.get refDict referenceHeader)
    | None => []
    end
  else nav.

(** Lines 106 to 146: the comparison of the discovered pages with the
    tree, the rewrite and the write. *)
Definition reconcile (opts : UpdateNavOpts) (mkDocsYmlPath relMkDocsYmlPath : string)
  (relReferenceDir : string) (nav : list NavEntry) (newRefFilepaths : list string)
  : M unit :=
  let referenceHeader := referenceHeader opts in
  let navUsesHeaders := noReferenceHeader opts || negb (isStringArray nav) in
  let refDictIdx := findRefDictIndex referenceHeader nav in
  let '(refFilepaths, nonRefFilepaths) :=
    partitionRefArray relReferenceDir (partitionTarget referenceHeader nav refDictIdx) in
  let symmetricDiff := Lodash.xor (NavPage <$> newRefFilepaths) refFilepaths in
  shouldWriteMkDocsYml ←
    (if negb (Nat.eqb (List.length symmetricDiff) 0) then
       log (DebugDifference symmetricDiff);;
       (if navUsesHeaders then
          if (0 <=? refDictIdx)%Z then
            let res := nonRefFilepaths ++ (NavPage <$> newRefFilepaths) in
            assignSection (Z.to_nat refDictIdx) referenceHeader res;;
            log (DebugReplacedSection referenceHeader res)
          else
            assignNav (nonRefFilepaths
                         ++ [NavSection referenceHeader (NavPage <$> newRefFilepaths)]);;
            log (DebugAddedSection referenceHeader newRefFilepaths)
        else
          let nav' := nonRefFilepaths ++ (NavPage <$> newRefFilepaths) in
          assignNav nav';;
          log (DebugReplacedNav nav'));;
       mret true
     else mret false);
  if shouldWriteMkDocsYml : bool then
    yaml ← readDoc;
    log (DebugYaml yaml);;
    safeWriteFile mkDocsYmlPath yaml;;
    log (SuccessUpdated relMkDocsYmlPath)
  else
    log (InfoNoChanges relMkDocsYmlPath).

(** Lines 26 to 147, from the point where the locations are resolved. *)
Definition updateNav (opts : UpdateNavOpts) (env : Env) : M unit :=
  doc ← readDoc;
  let nav := default [] (nav doc) in
  let relReferenceDir := NodePath.relative (mkDocsDocsDir env) (typeDocOutDir env) in
  let commandDir := NodePath.joinAbs (typeDocOutDir env) "commands" in
  let relCommandDir := NodePath.relative (mkDocsDocsDir env) commandDir in
  if Nat.eqb (List.length (commandDocFileEnts env)) 0 then
    log (WarnNoReferenceDocs commandDir)
  else
    let newRefFilepaths := collectRefFilepaths relCommandDir (commandDocFileEnts env) in
    log (DebugNewRefFilepaths newRefFilepaths);;
    reconcile opts (mkDocsYmlPath env) (relMkDocsYmlPath env)
      relReferenceDir nav newRefFilepaths.

(** A run of [updateNav] on a document freshly read from [mkdocs.yml]. *)
Definition initial (doc : MkDocsYml) : State :=
  {| mkDocsYml := doc; logged := []; written := [] |}.

Definition run (m : M unit) (doc : MkDocsYml) : State := snd (m (initial doc)).

(** Line 71, [nav = []] when the document has no [nav] key. *)
Definition navOf (doc : MkDocsYml) : list NavEntry := default [] (nav doc).

(** The values of the variables [refFilepaths] and [nonRefFilepaths] after
    lines 111 to 118. *)
Definition refFilepaths (referenceHeader relReferenceDir : string)
  (nav : list NavEntry) : list NavEntry :=
  fst (partitionRefArray relReferenceDir
         (partitionTarget referenceHeader nav (findRefDictIndex referenceHeader nav))).

Definition nonRefFilepaths (referenceHeader relReferenceDir : string)
  (nav : list NavEntry) : list NavEntry :=
  snd (partitionRefArray relReferenceDir
         (partitionTarget referenceHeader nav (findRefDictIndex referenceHeader nav))).

(** The value of [symmetricDiff] at line 120. *)
Definition symmetricDiff (referenceHeader relReferenceDir : string)
  (nav : list NavEntry) (newRefFilepaths : list string) : list NavEntry :=
  Lodash.xor (NavPage <$> newRefFilepaths)
    (refFilepaths referenceHeader relReferenceDir nav).

(** Lines 106 to 146 run on the tree of a document read from [mkdocs.yml]. *)
Definition reconcileDoc (opts : UpdateNavOpts) (mkDocsYmlPath relMkDocsYmlPath : string)
  (relReferenceDir : string) (doc : MkDocsYml) (newRefFilepaths : list string)
  : State :=
  run (reconcile opts mkDocsYmlPath relMkDocsYmlPath relReferenceDir
         (navOf doc) newRefFilepaths) doc.

(** Lines 80, 91 and 92: the reference directory and the [commands]
    directory, relative to the directory of the input documents. *)
Definition relReferenceDir (env : Env) : string :=
  NodePath.relative (mkDocsDocsDir env) (typeDocOutDir env).

Definition relCommandDir (env : Env) : string :=
  NodePath.relative (mkDocsDocsDir env)
    (NodePath.joinAbs (typeDocOutDir env) "commands").

(** The value of [newRefFilepaths] at line 104. *)
Definition discovered (env : Env) : list string :=
  collectRefFilepaths (relCommandDir env) (commandDocFileEnts env).

End Nav.


(** ** The resolution of the locations *)

(** Lines 52 to 93 of [updateNav]: from the paths of [mkdocs.yml] and
    [typedoc.json], as they are after line 38, to the directories that the
    reconciliation works with.  A path string that is absolute is handled
    through its segments, the parts between separators. *)
Module Resolve.

Import Model Nav.

(** [path.isAbsolute] *)
Definition isAbsolute (p : string) : bool :=
  match p with
  | String c _ => Ascii.eqb c "/"
  | EmptyString => false
  end.

(** The parts of a path string between separators, [p.split ("/")]. *)
Fixpoint split (p : string) : list string :=
  match p with
  | EmptyString => [EmptyString]
  | String c rest =>
      if Ascii.eqb c "/" then EmptyString :: split rest
      else match split rest with
           | seg :: segs => String c seg :: segs
           | [] => [String c EmptyString]
           end
  end.

(** [normalizeString] of [node:path] for an absolute path: empty segments
    and [.] are dropped, [..] removes the segment before it and is dropped
    at the root. *)
Fixpoint normalizeFrom (stack segs : list string) : NodePath.AbsPath :=
  match segs with
  | [] => rev stack
  | seg :: rest =>
      if String.eqb seg "" || String.eqb seg "." then normalizeFrom stack rest
      else if String.eqb seg ".." then normalizeFrom (tail stack) rest
      else normalizeFrom (seg :: stack) rest
  end.

Definition normalize (segs : list string) : NodePath.AbsPath :=
  normalizeFrom [] segs.

(** The segments that [path.resolve] normalises: those of the last absolute
    argument and of the arguments after it. *)
Fixpoint gather (acc : list string) (paths : list string) : list string :=
  match paths with
  | [] => acc
  | p :: rest =>
      if isAbsolute p then gather (split p) rest
      else gather (acc ++ split p) rest
  end.

(** [path.resolve (...paths)] in a process whose working directory is
    [processCwd], an absolute path. *)
Definition resolve (processCwd : string) (paths : list string) : NodePath.AbsPath :=
  normalize (gather (split processCwd) paths).

(** [path.resolve (dir, p)] for an absolute directory given by its
    segments. *)
Definition resolveFrom (dir : list string) (p : string) : NodePath.AbsPath :=
  normalize (if isAbsolute p then split p else dir ++ split p).

(** [path.dirname] of an absolute path given by its segments: trailing
    separators and the last segment are removed. *)
Definition dirname (segs : list string) : list string :=
  removelast (List.filter (fun seg => negb (String.eqb seg "")) segs).

(** The options that locate the two documents, after line 38. *)
Record Locations : Type := mkLocations {
  cwd : string;
  mkdocsYml : string;
  typedocJson : string
}.

(** What [readTypedocJson] returns, as far as [updateNav] reads it. *)
Record TypeDocJson : Type := mkTypeDocJson {
  out : option string
}.

(** What the process and the modules that are not part of the sources at
    hand provide: the working directory of the process, the listing of a
    directory ([None] when [fs.readdir] rejects, as it does for a directory
    that does not exist), [relative] of [./util] and the constant
    [DEFAULT_REL_TYPEDOC_OUT_PATH] of [./constants]. *)
Record Host : Type := mkHost {
  processCwd : string;
  readdir : NodePath.AbsPath -> option (list Dirent);
  relative : string -> string -> string;
  DEFAULT_REL_TYPEDOC_OUT_PATH : string
}.

(** Lines 52 and 67: the segments of the absolute path of a document. *)
Definition absolutePath (host : Host) (loc : Locations) (p : string) : list string :=
  if isAbsolute p then split p else resolve (processCwd host) [cwd loc; p].

(** Line 61: [typeDocJson.out ? typeDocJson.out : DEFAULT_REL_TYPEDOC_OUT_PATH];
    an empty string is not truthy. *)
Definition outOrDefault (host : Host) (typeDocJson : TypeDocJson) : string :=
  match out typeDocJson with
  | Some o => if String.eqb o "" then DEFAULT_REL_TYPEDOC_OUT_PATH host else o
  | None => DEFAULT_REL_TYPEDOC_OUT_PATH host
  end.

(** Lines 59 to 62. *)
Definition typeDocOutDirOf (host : Host) (loc : Locations) (typeDocJson : TypeDocJson)
  : NodePath.AbsPath :=
  resolveFrom (dirname (absolutePath host loc (typedocJson loc)))
    (outOrDefault host typeDocJson).

(** Line 75: [docsDir ?? 'docs']; only a missing key falls back. *)
Definition mkDocsDocsDirOf (host : Host) (loc : Locations) (doc : MkDocsYml)
  : NodePath.AbsPath :=
  resolveFrom (dirname (absolutePath host loc (mkdocsYml loc)))
    (default "docs" (docs_dir doc)).

(** What the reconciliation is given, lines 39 to 93, once the [commands]
    directory is listed. *)
Definition resolveEnv (host : Host) (loc : Locations) (typeDocJson : TypeDocJson)
  (doc : MkDocsYml) (ents : list Dirent) : Env :=
  {| mkDocsYmlPath := mkdocsYml loc;
     relMkDocsYmlPath := relative host (cwd loc) (mkdocsYml loc);
     typeDocOutDir := typeDocOutDirOf host loc typeDocJson;
     mkDocsDocsDir := mkDocsDocsDirOf host loc doc;
     commandDocFileEnts := ents |}.

(** How the promise that [updateNav] returns settles. *)
Inductive Completion : Type := Fulfilled | Rejected.

(** [updateNav] from line 39 on: a listing that rejects at line 93 rejects
    the whole call at that point. *)
Definition updateNavAt (host : Host) (opts : UpdateNavOpts) (loc : Locations)
  (typeDocJson : TypeDocJson) : M Completion :=
  doc ← readDoc;
  match readdir host (NodePath.joinAbs (typeDocOutDirOf host loc typeDocJson) "commands") with
  | None => mret Rejected
  | Some ents =>
      updateNav opts (resolveEnv host loc typeDocJson doc ents);;
      mret Fulfilled
  end.

Definition runAt (m : M Completion) (doc : MkDocsYml) : Completion * State :=
  m (initial doc).

(** A segment of a normalised path: not empty, not [.], not [..], and
    without a separator. *)
Definition noSlash (seg : string) : bool :=
  forallb (fun c => negb (Ascii.eqb c "/")) (list_ascii_of_string seg).

Definition plain (seg : string) : bool :=
  negb (String.eqb seg "") && negb (String.eqb seg ".")
  && negb (String.eqb seg "..") && noSlash seg.

End Resolve.

(** ** Inputs of the examples *)

Module Inputs.

Import Model Nav.

Definition mdFile (n : string) : Dirent := {| name := n; isFile := true |}.

(** [mkdocs.yml] beside [docs/], TypeDoc writing to [docs/ref]. *)
Definition envRef (ents : list Dirent) : Env :=
  {| mkDocsYmlPath := "/proj/mkdocs.yml";
     relMkDocsYmlPath := "mkdocs.yml";
     typeDocOutDir := ["proj"; "docs"; "ref"];
     mkDocsDocsDir := ["proj"; "docs"];
     commandDocFileEnts := ents |}.

(** [mkdocs.yml] beside [docs/], TypeDoc writing into [docs/] itself. *)
Definition envSameDir (ents : list Dirent) : Env :=
  {| mkDocsYmlPath := "/proj/mkdocs.yml";
     relMkDocsYmlPath := "mkdocs.yml";
     typeDocOutDir := ["proj"; "docs"];
     mkDocsDocsDir := ["proj"; "docs"];
     commandDocFileEnts := ents |}.

Definition docWith (entries : list NavEntry) : MkDocsYml :=
  {| docs_dir := None; nav := Some entries |}.

Definition optsNoHeader : UpdateNavOpts :=
  {| referenceHeader := DEFAULT_REFERENCE_HEADER;
     noReferenceHeader := true;
     dryRun := false |}.

(** A process started in [/home/dev] whose [commands] directory lists
    [ents]. *)
Definition hostWith (ents : list Dirent) : Resolve.Host :=
  {| Resolve.processCwd := "/home/dev";
     Resolve.readdir := fun _ => Some ents;
     Resolve.relative := fun _ p => p;
     Resolve.DEFAULT_REL_TYPEDOC_OUT_PATH := "docs/reference" |}.

(** Both documents named relative to the project directory [/proj]. *)
Definition locProj : Resolve.Locations :=
  {| Resolve.cwd := "/proj";
     Resolve.mkdocsYml := "mkdocs.yml";
     Resolve.typedocJson := "typedoc.json" |}.

(** Both documents named by absolute paths. *)
Definition locAbs : Resolve.Locations :=
  {| Resolve.cwd := "elsewhere";
     Resolve.mkdocsYml := "/proj/mkdocs.yml";
     Resolve.typedocJson := "/proj/cfg/typedoc.json" |}.

End Inputs.

(** ** Facts about the library functions *)

Module LodashFacts.

Import Model Lodash.

Section Collections.
Context {A : Type}.

Lemma partition_fst (arr : list A) pred :
  fst (partition arr pred) = List.filter pred arr.
Proof.
  induction arr as [|x rest IH]; simpl; [reflexivity|].
  destruct (partition rest pred) as [yes no]; simpl in *.
  destruct (pred x); simpl; congruence.
Qed.

Lemma partition_snd (arr : list A) pred :
  snd (partition arr pred) = List.filter (fun x => negb (pred x)) arr.
Proof.
  induction arr as [|x rest IH]; simpl; [reflexivity|].
  destruct (partition rest pred) as [yes no]; simpl in *.
  destruct (pred x); simpl; congruence.
Qed.

Lemma partition_pair (arr : list A) pred :
  partition arr pred
  = (List.filter pred arr, List.filter (fun x => negb (pred x)) arr).
Proof.
  rewrite <- partition_fst, <- partition_snd.
  destruct (partition arr pred); reflexivity.
Qed.

Lemma findIndexFrom_range (arr : list A) pred i :
  (findIndexFrom i arr pred = -1 \/ i <= findIndexFrom i arr pred)%Z.
Proof.
  revert i; induction arr as [|x rest IH]; intros i; simpl; [left; reflexivity|].
  destruct (pred x); [right; lia|].
  destruct (IH (i + 1)%Z) as [H|H]; [left; exact H | right; lia].
Qed.

Lemma findIndexFrom_found (arr : list A) pred i (k : nat) :
  (0 <= i)%Z ->
  findIndexFrom i arr pred = (i + Z.of_nat k)%Z ->
  exists x, arr !! k = Some x /\ pred x = true
            /\ forall j y, j < k -> arr !! j = Some y -> pred y = false.
Proof.
  revert i k; induction arr as [|x rest IH]; intros i k Hi; simpl.
  - intros H; lia.
  - destruct (pred x) eqn:Hp.
    + intros H. assert (k = 0) by lia; subst k.
      exists x; repeat split; [assumption|]. intros j y Hj; lia.
    + intros H. destruct k as [|k].
      * destruct (findIndexFrom_range rest pred (i + 1)) as [E|E]; lia.
      * destruct (IH (i + 1)%Z k) as (y & Hy & Hpy & Hbefore); [lia | lia |].
        exists y; repeat split; [exact Hy | exact Hpy |].
        intros [|j] z Hj Hz; simpl in Hz.
        -- congruence.
        -- apply (Hbefore j z); [lia | exact Hz].
Qed.

Lemma findIndexFrom_none (arr : list A) pred i :
  (0 <= i)%Z ->
  findIndexFrom i arr pred = (-1)%Z -> forall x, x ∈ arr -> pred x = false.
Proof.
  revert i; induction arr as [|y rest IH]; intros i Hi; simpl.
  - intros _ x Hx. inversion Hx.
  - destruct (pred y) eqn:Hp; [lia|].
    intros H x Hx. apply elem_of_cons in Hx as [->|Hx]; [exact Hp|].
    apply (IH (i + 1)%Z); [lia | exact H | exact Hx].
Qed.

Lemma findIndexFrom_first (arr : list A) pred i (k : nat) x :
  arr !! k = Some x -> pred x = true ->
  (forall j y, j < k -> arr !! j = Some y -> pred y = false) ->
  findIndexFrom i arr pred = (i + Z.of_nat k)%Z.
Proof.
  revert i k; induction arr as [|y rest IH]; intros i k Hk Hp Hbefore.
  - discriminate.
  - destruct k as [|k]; simpl in *.
    + injection Hk as ->. rewrite Hp. lia.
    + rewrite (Hbefore 0 y ltac:(lia) eq_refl).
      rewrite (IH (i + 1)%Z k Hk Hp); [lia|].
      intros j z Hj Hz. apply (Hbefore (S j) z); [lia | exact Hz].
Qed.

Lemma filter_sublist (f : A -> bool) (l : list A) :
  List.filter f l `sublist_of` l.
Proof.
  induction l as [|x l IH]; simpl; [constructor|].
  destruct (f x); [apply sublist_skip | apply sublist_cons]; exact IH.
Qed.

Lemma filter_lookup (f : A -> bool) (l : list A) j b :
  l !! j = Some b -> f b = true -> exists k, List.filter f l !! k = Some b.
Proof.
  revert j; induction l as [|x l IH]; intros j Hj Hb; [discriminate|].
  destruct j as [|j]; simpl in *.
  - injection Hj as ->. rewrite Hb. exists 0. reflexivity.
  - destruct (IH j Hj Hb) as [k Hk].
    destruct (f x); [exists (S k) | exists k]; exact Hk.
Qed.

(** Filtering keeps the relative order of the elements it keeps. *)
Lemma filter_keeps_order (f : A -> bool) (l : list A) i j a b :
  i < j -> l !! i = Some a -> l !! j = Some b -> f a = true -> f b = true ->
  exists i' j', i' < j' /\ List.filter f l !! i' = Some a
                /\ List.filter f l !! j' = Some b.
Proof.
  revert i j; induction l as [|x l IH]; intros i j Hij Hi Hj Ha Hb; [discriminate|].
  destruct j as [|j]; [lia|]. destruct i as [|i]; simpl in *.
  - injection Hi as ->. rewrite Ha.
    destruct (filter_lookup f l j b Hj Hb) as [k Hk].
    exists 0, (S k). repeat split; [lia | exact Hk].
  - destruct (IH i j ltac:(lia) Hi Hj Ha Hb) as (i' & j' & Hlt & Hi' & Hj').
    destruct (f x).
    + exists (S i'), (S j'). repeat split; [lia | exact Hi' | exact Hj'].
    + exists i', j'. repeat split; assumption.
Qed.

Lemma filter_filter_negb (f : A -> bool) (l : list A) :
  List.filter f (List.filter (fun x => negb (f x)) l) = [].
Proof.
  induction l as [|x l IH]; simpl; [reflexivity|].
  destruct (f x) eqn:E; simpl; [exact IH | rewrite E; exact IH].
Qed.

Lemma filter_all (f : A -> bool) (l : list A) :
  (forall x, x ∈ l -> f x = true) -> List.filter f l = l.
Proof.
  induction l as [|x l IH]; intros H; simpl; [reflexivity|].
  rewrite (H x) by left. f_equal. apply IH. intros y Hy. apply H. right; exact Hy.
Qed.

Context `{EqDecision A}.

Lemma elem_of_baseDifference (a b : list A) x :
  x ∈ baseDifference a b <-> x ∈ a /\ x ∉ b.
Proof.
  unfold baseDifference. rewrite list_elem_of_In, filter_In, <- list_elem_of_In.
  rewrite negb_true_iff, bool_decide_eq_false. reflexivity.
Qed.

Lemma elem_of_baseUniqFrom (seen array : list A) x :
  x ∈ baseUniqFrom seen array <-> x ∈ array /\ x ∉ seen.
Proof.
  revert seen; induction array as [|y rest IH]; intros seen; simpl.
  - split; [intros H; inversion H | intros [H _]; inversion H].
  - destruct (bool_decide (y ∈ seen)) eqn:Hy.
    + apply bool_decide_eq_true in Hy. rewrite IH, elem_of_cons.
      split; [tauto|]. intros [[->|H] Hn]; [contradiction | tauto].
    + apply bool_decide_eq_false in Hy. rewrite !elem_of_cons, IH, elem_of_cons.
      split.
      * intros [->|[H Hn]]; [tauto|]. split; [tauto|]. intros Hs; apply Hn; tauto.
      * intros [[->|H] Hn]; [tauto|].
        destruct (decide (x = y)) as [->|Hne]; [tauto|]. right; split; [exact H|].
        intros [?|?]; contradiction.
Qed.

Lemma elem_of_baseUniq (array : list A) x : x ∈ baseUniq array <-> x ∈ array.
Proof.
  unfold baseUniq. rewrite elem_of_baseUniqFrom. split; [tauto|].
  intros H; split; [exact H|]. intros Hn; inversion Hn.
Qed.

Lemma elem_of_xor (a b : list A) x :
  x ∈ xor a b <-> (x ∈ a /\ x ∉ b) \/ (x ∈ b /\ x ∉ a).
Proof.
  unfold xor. rewrite elem_of_baseUniq, elem_of_app, !elem_of_baseDifference.
  reflexivity.
Qed.

(** The symmetric difference is empty exactly when both arrays hold the
    same set of values. *)
Lemma xor_nil_iff (a b : list A) :
  xor a b = [] <-> (forall x, x ∈ a <-> x ∈ b).
Proof.
  split.
  - intros H x.
    assert (Hx : ~ x ∈ xor a b) by (rewrite H; intros Hn; inversion Hn).
    rewrite elem_of_xor in Hx.
    destruct (decide (x ∈ a)), (decide (x ∈ b)); tauto.
  - intros H. destruct (xor a b) as [|y l] eqn:E; [reflexivity|].
    assert (Hy : y ∈ xor a b) by (rewrite E; left).
    rewrite elem_of_xor in Hy. specialize (H y). tauto.
Qed.

Lemma xor_length_zero (a b : list A) :
  Nat.eqb (List.length (xor a b)) 0 = true <-> (forall x, x ∈ a <-> x ∈ b).
Proof.
  rewrite <- xor_nil_iff, Nat.eqb_eq. destruct (xor a b); simpl; split;
    intros H; try reflexivity; discriminate.
Qed.

Lemma xor_same (a : list A) : xor a a = [].
Proof. apply xor_nil_iff. tauto. Qed.

End Collections.

End LodashFacts.

(** ** Facts about the stages of [updateNav] *)

Module NavFacts.

Import Model Nav LodashFacts.

Lemma prefix_chars (p s : string) (c : ascii) :
  String.prefix p s = true ->
  In c (list_ascii_of_string p) -> In c (list_ascii_of_string s).
Proof.
  revert s; induction p as [|a p IH]; intros s Hp Hc; simpl in *; [contradiction|].
  destruct s as [|b s]; simpl in Hp; [discriminate Hp|].
  destruct (ascii_dec a b) as [->|]; [|discriminate Hp].
  simpl. destruct Hc as [->|Hc]; [left; reflexivity | right; eauto].
Qed.

Lemma slash_in_prefix (dir : string) :
  In "/"%char (list_ascii_of_string (dir ++ "/")).
Proof. induction dir; simpl; [left; reflexivity | right; assumption]. Qed.

(** A mapping is never in the reference partition: its string form has no
    path separator. *)
Lemma startsWith_section title children dir :
  Lodash.startsWith (NavSection title children) (dir ++ "/") = false.
Proof.
  unfold Lodash.startsWith, Lodash.toString.
  destruct (String.prefix (dir ++ "/") "[object Object]") eqn:E; [|reflexivity].
  exfalso. pose proof (prefix_chars _ _ "/"%char E (slash_in_prefix dir)) as H.
  simpl in H. intuition discriminate.
Qed.

Lemma partitionRefArray_fst dir arr :
  fst (partitionRefArray dir arr)
  = List.filter (fun v => Lodash.startsWith v (dir ++ "/")) arr.
Proof. apply partition_fst. Qed.

Lemma partitionRefArray_snd dir arr :
  snd (partitionRefArray dir arr)
  = List.filter (fun v => negb (Lodash.startsWith v (dir ++ "/"))) arr.
Proof. apply partition_snd. Qed.

(** Every entry of the reference partition is a plain string that starts
    with the reference directory and a separator. *)
Lemma refFilepaths_elem header dir nav e :
  e ∈ refFilepaths header dir nav ->
  exists s, e = NavPage s /\ String.prefix (dir ++ "/") s = true.
Proof.
  unfold refFilepaths. rewrite partitionRefArray_fst, list_elem_of_In, filter_In.
  intros [_ H]. destruct e as [s|t c].
  - exists s; split; [reflexivity | exact H].
  - rewrite startsWith_section in H; discriminate.
Qed.

Lemma isRefSection_true header e :
  Lodash.overEvery [Lodash.isObject; fun v => Lodash.has v header] e = true ->
  exists children, e = NavSection header children.
Proof.
  unfold Lodash.overEvery; simpl. destruct e as [s|t c]; simpl; [discriminate|].
  rewrite andb_true_r. intros H%String.eqb_eq; subst. eauto.
Qed.

(** [findRefDictIndex] returns [-1] or the index of a mapping with the
    header key. *)
Lemma findRefDictIndex_cases header nav :
  findRefDictIndex header nav = (-1)%Z
  \/ exists (idx : nat) children,
       findRefDictIndex header nav = Z.of_nat idx
       /\ nav !! idx = Some (NavSection header children).
Proof.
  unfold findRefDictIndex, Lodash.findIndex.
  destruct (findIndexFrom_range nav
              (Lodash.overEvery [Lodash.isObject; fun v => Lodash.has v header]) 0)
    as [H|H]; [left; exact H | right].
  set (pred := Lodash.overEvery _) in *.
  destruct (findIndexFrom_found nav pred 0 (Z.to_nat (Lodash.findIndexFrom 0 nav pred)))
    as (x & Hx & Hp & _); [lia | lia |].
  apply isRefSection_true in Hp as [children ->].
  exists (Z.to_nat (Lodash.findIndexFrom 0 nav pred)), children.
  split; [lia | exact Hx].
Qed.

Lemma findRefDictIndex_none header nav :
  findRefDictIndex header nav = (-1)%Z ->
  forall children, NavSection header children ∉ nav.
Proof.
  intros H children Hin.
  pose proof (findIndexFrom_none nav _ 0 ltac:(lia) H _ Hin) as Hp.
  unfold Lodash.overEvery in Hp; simpl in Hp.
  rewrite String.eqb_refl in Hp. discriminate.
Qed.

Lemma isStringArray_lookup nav idx title children :
  nav !! idx = Some (NavSection title children) -> isStringArray nav = false.
Proof.
  unfold isStringArray, Lodash.every. revert idx.
  induction nav as [|e nav IH]; intros [|idx] H; simpl in *; try discriminate.
  - injection H as ->. reflexivity.
  - rewrite (IH idx H). apply andb_false_r.
Qed.

(** A tree with a reference section is never classified as a flat array of
    strings. *)
Lemma section_uses_headers header nav (idx : nat) :
  findRefDictIndex header nav = Z.of_nat idx -> isStringArray nav = false.
Proof.
  intros H. destruct (findRefDictIndex_cases header nav) as [E|(k & c & E & Hk)].
  - lia.
  - eapply isStringArray_lookup; exact Hk.
Qed.

Lemma partitionTarget_none header nav :
  findRefDictIndex header nav = (-1)%Z ->
  partitionTarget header nav (findRefDictIndex header nav) = nav.
Proof. intros ->. reflexivity. Qed.

Lemma partitionTarget_section header nav (idx : nat) children :
  findRefDictIndex header nav = Z.of_nat idx ->
  nav !! idx = Some (NavSection header children) ->
  partitionTarget header nav (findRefDictIndex header nav) = children.
Proof.
  intros -> H. unfold partitionTarget.
  destruct (0 <=? Z.of_nat idx)%Z eqn:E; [|apply Z.leb_gt in E; lia].
  rewrite Nat2Z.id, H. simpl. rewrite String.eqb_refl. reflexivity.
Qed.

Lemma isRefSection_section header children :
  Lodash.overEvery [Lodash.isObject; fun v => Lodash.has v header]
    (NavSection header children) = true.
Proof. unfold Lodash.overEvery; simpl. rewrite String.eqb_refl. reflexivity. Qed.

(** No mapping before the index found has the header key. *)
Lemma findRefDictIndex_before header nav (idx : nat) :
  findRefDictIndex header nav = Z.of_nat idx ->
  forall j children, j < idx -> nav !! j <> Some (NavSection header children).
Proof.
  intros H j children Hj Hlook.
  destruct (findIndexFrom_found nav _ 0 idx ltac:(lia) H) as (x & _ & _ & Hbefore).
  pose proof (isRefSection_section header children) as Htrue.
  rewrite (Hbefore j _ Hj Hlook) in Htrue. discriminate Htrue.
Qed.

(** The index found is that of the first mapping with the header key. *)
Lemma findRefDictIndex_first header nav (idx : nat) children :
  nav !! idx = Some (NavSection header children) ->
  (forall j c, j < idx -> nav !! j <> Some (NavSection header c)) ->
  findRefDictIndex header nav = Z.of_nat idx.
Proof.
  intros Hk Hbefore. unfold findRefDictIndex, Lodash.findIndex.
  apply (findIndexFrom_first nav _ 0 idx _ Hk (isRefSection_section _ _)).
  intros j y Hj Hy.
  destruct (Lodash.overEvery _ y) eqn:E; [|reflexivity].
  apply isRefSection_true in E as [c ->]. exfalso. exact (Hbefore j c Hj Hy).
Qed.

(** Replacing the nested list of the section leaves the section where it
    is found. *)
Lemma findRefDictIndex_insert header nav (idx : nat) children' :
  findRefDictIndex header nav = Z.of_nat idx ->
  findRefDictIndex header (<[idx := NavSection header children']> nav)
  = Z.of_nat idx.
Proof.
  intros H.
  destruct (findRefDictIndex_cases header nav) as [E|(k & children & E & Hk)];
    [lia|].
  assert (k = idx) by lia; subst k.
  apply (findRefDictIndex_first _ _ _ children').
  - apply list_lookup_insert_eq. eapply lookup_lt_Some; exact Hk.
  - intros j c Hj. rewrite list_lookup_insert_ne by lia.
    apply (findRefDictIndex_before _ _ _ H); exact Hj.
Qed.

(** With a reference section, both partitions are taken from its nested
    list. *)
Lemma section_partition header dir nav (idx : nat) :
  findRefDictIndex header nav = Z.of_nat idx ->
  exists children,
    nav !! idx = Some (NavSection header children)
    /\ refFilepaths header dir nav
       = List.filter (fun v => Lodash.startsWith v (dir ++ "/")) children
    /\ nonRefFilepaths header dir nav
       = List.filter (fun v => negb (Lodash.startsWith v (dir ++ "/"))) children.
Proof.
  intros Hidx.
  destruct (findRefDictIndex_cases header nav) as [E|(k & children & E & Hk)];
    [lia|].
  assert (k = idx) by lia; subst k. exists children.
  unfold refFilepaths, nonRefFilepaths.
  rewrite (partitionTarget_section _ _ _ _ Hidx Hk).
  rewrite partitionRefArray_fst, partitionRefArray_snd. auto.
Qed.

(** Without one, they are taken from the top-level tree. *)
Lemma toplevel_partition header dir nav :
  findRefDictIndex header nav = (-1)%Z ->
  refFilepaths header dir nav
  = List.filter (fun v => Lodash.startsWith v (dir ++ "/")) nav
  /\ nonRefFilepaths header dir nav
     = List.filter (fun v => negb (Lodash.startsWith v (dir ++ "/"))) nav.
Proof.
  intros Hidx. unfold refFilepaths, nonRefFilepaths.
  rewrite (partitionTarget_none _ _ Hidx).
  rewrite partitionRefArray_fst, partitionRefArray_snd. auto.
Qed.

End NavFacts.

(** ** The outcome of a run, branch by branch *)

Module RunFacts.

Import Model Nav LodashFacts NavFacts.

Ltac run_reconcile :=
  unfold reconcileDoc, run, reconcile, symmetricDiff, refFilepaths, nonRefFilepaths in *;
  destruct (partitionRefArray _ _) as [refs nonRefs] eqn:Epart;
  cbn [fst snd] in *;
  unfold mbind, M_bind, mret, M_ret, log, assignNav, assignSection,
    safeWriteFile, readDoc, initial;
  cbn [fst snd mkDocsYml logged written docs_dir nav].

Section Reconcile.

Variable opts : UpdateNavOpts.
Variables path rel dir : string.
Variable doc : MkDocsYml.
Variable D : list string.

(** No difference: nothing is mutated and nothing is written. *)
Lemma reconcileDoc_unchanged :
  symmetricDiff (referenceHeader opts) dir (navOf doc) D = [] ->
  reconcileDoc opts path rel dir doc D
  = {| mkDocsYml := doc; logged := [InfoNoChanges rel]; written := [] |}.
Proof.
  intros H. run_reconcile. rewrite H. reflexivity.
Qed.

(** A difference and a reference section: the nested list of the section
    is replaced in place. *)
Lemma reconcileDoc_section (idx : nat) :
  symmetricDiff (referenceHeader opts) dir (navOf doc) D <> [] ->
  findRefDictIndex (referenceHeader opts) (navOf doc) = Z.of_nat idx ->
  let res := nonRefFilepaths (referenceHeader opts) dir (navOf doc)
               ++ (NavPage <$> D) in
  let doc' := {| docs_dir := docs_dir doc;
                 nav := Some (<[idx := NavSection (referenceHeader opts) res]>
                                (navOf doc)) |} in
  mkDocsYml (reconcileDoc opts path rel dir doc D) = doc'
  /\ written (reconcileDoc opts path rel dir doc D) = [(path, doc')].
Proof.
  intros Hdiff Hidx res doc'.
  destruct (findRefDictIndex_cases (referenceHeader opts) (navOf doc))
    as [E|(k & children & E & Hk)]; [lia|].
  assert (k = idx) by lia; subst k.
  pose proof (isStringArray_lookup _ _ _ _ Hk) as Hstr.
  assert (Hnav : nav doc = Some (navOf doc)).
  { unfold navOf in *. destruct (nav doc); [reflexivity | destruct idx; discriminate]. }
  subst res doc'. run_reconcile.
  destruct (Lodash.xor (NavPage <$> D) refs) as [|x diff]; [congruence|].
  rewrite Hstr, Hidx, orb_true_r.
  destruct (0 <=? Z.of_nat idx)%Z eqn:Hle; [|apply Z.leb_gt in Hle; lia].
  cbn -[Z.to_nat]. rewrite Nat2Z.id, Hnav. cbn. rewrite Hk.
  cbn. rewrite String.eqb_refl. split; reflexivity.
Qed.

(** A difference, headers in use and no reference section: a section is
    appended after the entries that are kept. *)
Lemma reconcileDoc_added :
  symmetricDiff (referenceHeader opts) dir (navOf doc) D <> [] ->
  findRefDictIndex (referenceHeader opts) (navOf doc) = (-1)%Z ->
  noReferenceHeader opts || negb (isStringArray (navOf doc)) = true ->
  let doc' := {| docs_dir := docs_dir doc;
                 nav := Some (nonRefFilepaths (referenceHeader opts) dir (navOf doc)
                                ++ [NavSection (referenceHeader opts) (NavPage <$> D)]) |} in
  mkDocsYml (reconcileDoc opts path rel dir doc D) = doc'
  /\ written (reconcileDoc opts path rel dir doc D) = [(path, doc')].
Proof.
  intros Hdiff Hidx Hhdr doc'. subst doc'. run_reconcile.
  destruct (Lodash.xor (NavPage <$> D) refs) as [|x diff]; [congruence|].
  rewrite Hhdr, Hidx. cbn. split; reflexivity.
Qed.

(** A difference and a flat tree with no header asked for: the tree is
    replaced by the entries that are kept and the discovered pages. *)
Lemma reconcileDoc_flat :
  symmetricDiff (referenceHeader opts) dir (navOf doc) D <> [] ->
  noReferenceHeader opts || negb (isStringArray (navOf doc)) = false ->
  let doc' := {| docs_dir := docs_dir doc;
                 nav := Some (nonRefFilepaths (referenceHeader opts) dir (navOf doc)
                                ++ (NavPage <$> D)) |} in
  mkDocsYml (reconcileDoc opts path rel dir doc D) = doc'
  /\ written (reconcileDoc opts path rel dir doc D) = [(path, doc')].
Proof.
  intros Hdiff Hhdr doc'. subst doc'. run_reconcile.
  destruct (Lodash.xor (NavPage <$> D) refs) as [|x diff]; [congruence|].
  rewrite Hhdr. cbn. split; reflexivity.
Qed.

(** Whatever the branch, a difference leads to exactly one write, of the
    document as it is in memory after the rewrite. *)
Lemma reconcileDoc_written :
  symmetricDiff (referenceHeader opts) dir (navOf doc) D <> [] ->
  written (reconcileDoc opts path rel dir doc D)
  = [(path, mkDocsYml (reconcileDoc opts path rel dir doc D))].
Proof.
  intros Hdiff.
  destruct (noReferenceHeader opts || negb (isStringArray (navOf doc))) eqn:Hhdr.
  - destruct (findRefDictIndex_cases (referenceHeader opts) (navOf doc))
      as [E|(k & children & E & Hk)].
    + destruct (reconcileDoc_added Hdiff E Hhdr) as [-> ->]. reflexivity.
    + destruct (reconcileDoc_section k Hdiff E) as [-> ->]. reflexivity.
  - destruct (reconcileDoc_flat Hdiff Hhdr) as [-> ->]. reflexivity.
Qed.

End Reconcile.

(** With a listing that is not empty, [updateNav] is the reconciliation of
    the discovered pages, after one debug line. *)
Lemma updateNav_reconcile opts env doc :
  commandDocFileEnts env <> [] ->
  let st := reconcileDoc opts (mkDocsYmlPath env) (relMkDocsYmlPath env)
              (relReferenceDir env) doc (discovered env) in
  mkDocsYml (run (updateNav opts env) doc) = mkDocsYml st
  /\ written (run (updateNav opts env) doc) = written st
  /\ logged (run (updateNav opts env) doc)
     = DebugNewRefFilepaths (discovered env) :: logged st.
Proof.
  intros Hents st. subst st.
  unfold updateNav, discovered, relReferenceDir, relCommandDir, navOf.
  unfold reconcileDoc, run, navOf, initial.
  unfold mbind at 1 2 3. unfold M_bind at 1 2 3. unfold readDoc at 1 2 3.
  cbn [mkDocsYml].
  destruct (commandDocFileEnts env) as [|ent ents] eqn:Eents; [congruence|].
  cbn [List.length Nat.eqb].
  unfold mbind at 1 2 3. unfold M_bind at 1 2 3. unfold log at 1 2 3. cbn [logged written mkDocsYml app].
  unfold reconcile.
  destruct (partitionRefArray _ _) as [refs nonRefs].
  unfold mbind, M_bind, mret, M_ret, log, assignNav, assignSection,
    safeWriteFile, readDoc.
  cbn [fst snd mkDocsYml logged written docs_dir nav].
  destruct (negb (Nat.eqb (List.length _) 0)); [|repeat split].
  destruct (noReferenceHeader opts || negb (isStringArray _)); [|repeat split].
  destruct (0 <=? _)%Z; repeat split.
Qed.

(** With an empty listing, [updateNav] warns and returns. *)
Lemma updateNav_empty_listing opts env doc :
  commandDocFileEnts env = [] ->
  run (updateNav opts env) doc
  = {| mkDocsYml := doc;
       logged := [WarnNoReferenceDocs (NodePath.joinAbs (typeDocOutDir env) "commands")];
       written := [] |}.
Proof.
  intros H. unfold run, updateNav, initial, mbind, M_bind, readDoc.
  cbn [mkDocsYml]. rewrite H. reflexivity.
Qed.

Lemma discovered_nonempty env :
  discovered env <> [] -> commandDocFileEnts env <> [].
Proof. unfold discovered. intros H E. rewrite E in H. apply H. reflexivity. Qed.

Lemma symmetricDiff_nil_iff header dir nav D :
  symmetricDiff header dir nav D = []
  <-> (forall x, x ∈ NavPage <$> D <-> x ∈ refFilepaths header dir nav).
Proof. apply xor_nil_iff. Qed.

(** A write happens exactly when the symmetric difference is not empty. *)
Lemma reconcileDoc_write_iff opts path rel dir doc D :
  written (reconcileDoc opts path rel dir doc D) <> []
  <-> symmetricDiff (referenceHeader opts) dir (navOf doc) D <> [].
Proof.
  destruct (decide (symmetricDiff (referenceHeader opts) dir (navOf doc) D = []))
    as [E|E].
  - rewrite (reconcileDoc_unchanged opts path rel dir doc D E). simpl. tauto.
  - rewrite (reconcileDoc_written opts path rel dir doc D E).
    split; [intros _; exact E | intros _; discriminate].
Qed.

(** The discovered pages of a tree that is empty or has no reference entry
    differ from the empty reference partition as soon as one page exists. *)
Lemma symmetricDiff_no_refs header dir nav D :
  refFilepaths header dir nav = [] -> D <> [] ->
  symmetricDiff header dir nav D <> [].
Proof.
  intros HE HD Hnil. rewrite symmetricDiff_nil_iff, HE in Hnil.
  destruct D as [|d D]; [congruence|].
  specialize (Hnil (NavPage d)). simpl in Hnil.
  assert (H : NavPage d ∈ []) by (apply Hnil; left). inversion H.
Qed.

End RunFacts.

(** ** When a second run finds nothing to do *)

Module Idempotence.

Import Model Nav LodashFacts NavFacts RunFacts.

Lemma findRefDictIndex_absent header nav :
  (forall children, NavSection header children ∉ nav) ->
  findRefDictIndex header nav = (-1)%Z.
Proof.
  intros H. destruct (findRefDictIndex_cases header nav) as [E|(k & c & _ & Hk)];
    [exact E|].
  exfalso. apply (H c). apply list_elem_of_lookup. eauto.
Qed.

Lemma elem_of_filter_bool (f : NavEntry -> bool) l x :
  x ∈ List.filter f l -> x ∈ l.
Proof. rewrite !list_elem_of_In, filter_In. tauto. Qed.

Lemma filter_discovered dir D :
  (forall d, d ∈ D -> String.prefix (dir ++ "/") d = true) ->
  List.filter (fun v => Lodash.startsWith v (dir ++ "/")) (NavPage <$> D)
  = NavPage <$> D.
Proof.
  intros H. apply filter_all. intros x Hx.
  apply list_elem_of_fmap in Hx as (d & -> & Hd). exact (H d Hd).
Qed.

Lemma filter_kept_discovered dir arr D :
  (forall d, d ∈ D -> String.prefix (dir ++ "/") d = true) ->
  List.filter (fun v => Lodash.startsWith v (dir ++ "/"))
    (List.filter (fun v => negb (Lodash.startsWith v (dir ++ "/"))) arr
     ++ (NavPage <$> D))
  = NavPage <$> D.
Proof.
  intros H. rewrite List.filter_app, filter_filter_negb, (filter_discovered _ _ H).
  reflexivity.
Qed.

(** After a run, the tree in memory holds the discovered pages as its
    reference partition, as long as every discovered page starts with the
    reference directory and a separator. *)
Lemma reconcileDoc_settles opts path rel dir doc D :
  (forall d, d ∈ D -> String.prefix (dir ++ "/") d = true) ->
  symmetricDiff (referenceHeader opts) dir
    (navOf (mkDocsYml (reconcileDoc opts path rel dir doc D))) D = [].
Proof.
  intros Hpre.
  destruct (decide (symmetricDiff (referenceHeader opts) dir (navOf doc) D = []))
    as [E|Hdiff].
  { rewrite (reconcileDoc_unchanged opts path rel dir doc D E). exact E. }
  set (header := referenceHeader opts) in *.
  destruct (findRefDictIndex_cases header (navOf doc)) as [E|(k & children & E & Hk)].
  - destruct (toplevel_partition header dir (navOf doc) E) as [_ Hnon].
    assert (Hnosec : forall c e, e ∈ nonRefFilepaths header dir (navOf doc) ->
                                 e <> NavSection header c).
    { intros c e He ->. rewrite Hnon in He. apply elem_of_filter_bool in He.
      exact (findRefDictIndex_none _ _ E c He). }
    destruct (noReferenceHeader opts || negb (isStringArray (navOf doc))) eqn:Hhdr.
    + destruct (reconcileDoc_added opts path rel dir doc D Hdiff E Hhdr) as [-> _].
      unfold navOf at 1; cbn [nav default]; unfold id. fold header.
      set (kept := nonRefFilepaths header dir (navOf doc)) in *.
      assert (Hidx : findRefDictIndex header (kept ++ [NavSection header (NavPage <$> D)])
                     = Z.of_nat (List.length kept)).
      { apply (findRefDictIndex_first _ _ _ (NavPage <$> D)).
        - rewrite lookup_app_r by lia. rewrite Nat.sub_diag. reflexivity.
        - intros j c Hj Hlook. rewrite lookup_app_l in Hlook by exact Hj.
          apply (Hnosec c (NavSection header c)); [|reflexivity].
          apply list_elem_of_lookup. eauto. }
      destruct (section_partition header dir _ _ Hidx) as (ch & Hch & Href & _).
      rewrite lookup_app_r in Hch by lia. rewrite Nat.sub_diag in Hch.
      injection Hch as <-.
      unfold symmetricDiff. rewrite Href, (filter_discovered _ _ Hpre).
      apply xor_same.
    + destruct (reconcileDoc_flat opts path rel dir doc D Hdiff Hhdr) as [-> _].
      unfold navOf at 1; cbn [nav default]; unfold id. fold header.
      set (kept := nonRefFilepaths header dir (navOf doc)) in *.
      assert (Hidx : findRefDictIndex header (kept ++ (NavPage <$> D)) = (-1)%Z).
      { apply findRefDictIndex_absent. intros c Hc.
        apply elem_of_app in Hc as [Hc|Hc].
        - exact (Hnosec c _ Hc eq_refl).
        - apply list_elem_of_fmap in Hc as (d & Hd & _). discriminate. }
      destruct (toplevel_partition header dir _ Hidx) as [Href _].
      unfold symmetricDiff. rewrite Href. subst kept. rewrite Hnon.
      rewrite (filter_kept_discovered _ _ _ Hpre). apply xor_same.
  - destruct (reconcileDoc_section opts path rel dir doc D k Hdiff E) as [-> _].
    unfold navOf at 1; cbn [nav default]; unfold id. fold header.
    destruct (section_partition header dir (navOf doc) k E) as (ch & Hch & _ & Hnon).
    rewrite Hnon.
    set (children' := List.filter _ ch ++ (NavPage <$> D)).
    pose proof (findRefDictIndex_insert header (navOf doc) k children' E) as Hidx.
    destruct (section_partition header dir _ _ Hidx) as (ch' & Hch' & Href & _).
    rewrite list_lookup_insert_eq in Hch' by (eapply lookup_lt_Some; exact Hch).
    injection Hch' as <-.
    unfold symmetricDiff. rewrite Href. subst children'.
    rewrite (filter_kept_discovered _ _ _ Hpre). apply xor_same.
Qed.

(** So a second reconciliation of the same pages writes nothing. *)
Lemma reconcileDoc_twice opts path rel dir doc D :
  (forall d, d ∈ D -> String.prefix (dir ++ "/") d = true) ->
  written (reconcileDoc opts path rel dir
             (mkDocsYml (reconcileDoc opts path rel dir doc D)) D) = [].
Proof.
  intros Hpre.
  rewrite (reconcileDoc_unchanged opts path rel dir _ D
             (reconcileDoc_settles opts path rel dir doc D Hpre)).
  reflexivity.
Qed.

End Idempotence.

(** ** Where the discovered pages lie *)

Module PathFacts.

Import Model Nav LodashFacts NavFacts RunFacts Idempotence.

Lemma append_assoc (a b c : string) : ((a ++ b) ++ c = a ++ (b ++ c))%string.
Proof.
  induction a as [|x a IH]; [reflexivity | exact (f_equal (String x) IH)].
Qed.

Lemma prefix_append (p s : string) : String.prefix p (p ++ s)%string = true.
Proof.
  induction p as [|x p IH]; [destruct s; reflexivity|].
  change (String.prefix (String x p) (String x (p ++ s)%string) = true).
  cbn [String.prefix].
  destruct (ascii_dec x x) as [_|Hne]; [exact IH | contradiction].
Qed.

Lemma append_nonempty (a b : string) : b <> "" -> (a ++ b)%string <> "".
Proof. destruct a; [tauto | discriminate]. Qed.

Lemma stripCommon_snoc from to up down segment :
  NodePath.stripCommon from to = (up, down) -> down <> [] ->
  NodePath.stripCommon from (to ++ [segment]) = (up, down ++ [segment]).
Proof.
  revert to; induction from as [|f from IH]; intros to H Hd.
  - simpl in *. injection H as <- <-. reflexivity.
  - destruct to as [|t to]; simpl in *.
    + injection H as <- <-. contradiction.
    + destruct (String.eqb f t).
      * apply IH; assumption.
      * injection H as <- <-. reflexivity.
Qed.

Lemma concat_snoc (l : list string) (s : string) :
  l <> [] -> String.concat "/" (l ++ [s]) = (String.concat "/" l ++ "/" ++ s)%string.
Proof.
  induction l as [|x l IH]; intros Hl; [contradiction|].
  destruct l as [|y l]; [reflexivity|].
  change (String.concat "/" ((x :: y :: l) ++ [s]))
    with (x ++ "/" ++ String.concat "/" ((y :: l) ++ [s])%list)%string.
  rewrite IH by discriminate.
  change (String.concat "/" (x :: y :: l))
    with (x ++ "/" ++ String.concat "/" (y :: l))%string.
  rewrite !append_assoc. reflexivity.
Qed.

(** As long as TypeDoc does not write into the directory of the input
    documents or into one of its ancestors, the [commands] directory is the
    reference directory followed by [/commands]. *)
Lemma relCommandDir_below env up down :
  NodePath.stripCommon (mkDocsDocsDir env) (typeDocOutDir env) = (up, down) ->
  down <> [] ->
  relCommandDir env = (relReferenceDir env ++ "/" ++ "commands")%string.
Proof.
  intros H Hd. unfold relCommandDir, relReferenceDir, NodePath.relative, NodePath.joinAbs.
  rewrite (stripCommon_snoc _ _ _ _ "commands" H Hd), H.
  rewrite app_assoc. apply concat_snoc.
  destruct down; [contradiction|]. destruct (repeat ".." (List.length up)); discriminate.
Qed.

Lemma collectRefFilepaths_elem relCommandDir ents d :
  d ∈ collectRefFilepaths relCommandDir ents ->
  exists n, d = NodePath.join relCommandDir n.
Proof.
  induction ents as [|ent ents IH]; simpl; [intros H; inversion H|].
  destruct (isFile ent && NodePath.endsWith (name ent) ".md").
  - intros [->|H]%elem_of_cons; eauto.
  - exact IH.
Qed.

Lemma discovered_below env up down d :
  NodePath.stripCommon (mkDocsDocsDir env) (typeDocOutDir env) = (up, down) ->
  down <> [] ->
  d ∈ discovered env -> String.prefix (relReferenceDir env ++ "/")%string d = true.
Proof.
  intros H Hd Hin. apply collectRefFilepaths_elem in Hin as [n ->].
  rewrite (relCommandDir_below env up down H Hd). unfold NodePath.join.
  destruct (String.eqb_spec (relReferenceDir env ++ "/" ++ "commands")%string "") as [E|_].
  - exfalso. revert E. apply append_nonempty. discriminate.
  - replace ((relReferenceDir env ++ "/" ++ "commands") ++ "/" ++ n)%string
      with ((relReferenceDir env ++ "/") ++ ("commands" ++ "/" ++ n))%string
      by (rewrite !append_assoc; reflexivity).
    apply prefix_append.
  Qed.

(** Then a second run of [updateNav], on the document the first run left
    and with the same listing, writes nothing. *)
Lemma updateNav_twice opts env doc up down :
  NodePath.stripCommon (mkDocsDocsDir env) (typeDocOutDir env) = (up, down) ->
  down <> [] ->
  written (run (updateNav opts env) (mkDocsYml (run (updateNav opts env) doc))) = [].
Proof.
  intros H Hd.
  destruct (commandDocFileEnts env) as [|ent ents] eqn:Eents.
  - rewrite !(updateNav_empty_listing opts env _ Eents). reflexivity.
  - assert (Hne : commandDocFileEnts env <> []) by (rewrite Eents; discriminate).
    destruct (updateNav_reconcile opts env doc Hne) as (-> & _ & _).
    destruct (updateNav_reconcile opts env
                (mkDocsYml (reconcileDoc opts (mkDocsYmlPath env) (relMkDocsYmlPath env)
                              (relReferenceDir env) doc (discovered env))) Hne)
      as (_ & -> & _).
    apply reconcileDoc_twice. intros d. apply (discovered_below env up down d H Hd).
Qed.

End PathFacts.

(** ** The properties of [updateNav] *)

Import Model Nav Inputs LodashFacts NavFacts RunFacts Idempotence PathFacts.

(** With [noReferenceHeader] set and no reference section in the tree,
    every rewrite appends a section under the header. *)
Lemma noReferenceHeader_adds_section opts path rel dir doc D :
  noReferenceHeader opts = true ->
  findRefDictIndex (referenceHeader opts) (navOf doc) = (-1)%Z ->
  symmetricDiff (referenceHeader opts) dir (navOf doc) D <> [] ->
  nav (mkDocsYml (reconcileDoc opts path rel dir doc D))
  = Some (nonRefFilepaths (referenceHeader opts) dir (navOf doc)
            ++ [NavSection (referenceHeader opts) (NavPage <$> D)]).
Proof.
  intros Hno Hidx Hdiff.
  destruct (reconcileDoc_added opts path rel dir doc D Hdiff Hidx) as [-> _].
  - rewrite Hno. reflexivity.
  - reflexivity.
Qed.

(** C1: with the tree [["intro.md"]], the discovered pages [["ref/a.md"]]
    and [noReferenceHeader] set, the claim expects the flat tree
    [["intro.md"; "ref/a.md"]]; the code appends a section
    [{Reference: ["ref/a.md"]}] instead, because [navUsesHeaders] is true
    as soon as [noReferenceHeader] is.  The same happens on a full run
    that discovers [ref/commands/a.md]. *)
Theorem C1_noReferenceHeader_synthesizes_header :
  let st := reconcileDoc optsNoHeader "/proj/mkdocs.yml" "mkdocs.yml" "ref"
              (docWith [NavPage "intro.md"]) ["ref/a.md"] in
  let st' := run (updateNav optsNoHeader (envRef [mdFile "a.md"]))
               (docWith [NavPage "intro.md"]) in
  nav (mkDocsYml st)
    = Some [NavPage "intro.md"; NavSection "Reference" [NavPage "ref/a.md"]]
  /\ nav (mkDocsYml st) <> Some [NavPage "intro.md"; NavPage "ref/a.md"]
  /\ written st = [("/proj/mkdocs.yml", mkDocsYml st)]
  /\ nav (mkDocsYml st')
    = Some [NavPage "intro.md"; NavSection "Reference" [NavPage "ref/commands/a.md"]].
Proof.
  cbv zeta. repeat split; try (vm_compute; reflexivity).
  vm_compute. discriminate.
Qed.

(** C2: the listing of the [commands] directory holds one file that is not
    Markdown, so no page is discovered; the claim expects a warning and an
    early return, but the guard of line 94 looks at the number of entries of
    the listing, not at the number of Markdown files: no warning is logged,
    the reference entry of the tree is dropped and the document is written. *)
Theorem C2_listing_without_markdown_not_skipped :
  let env := envRef [mdFile "README.txt"] in
  let doc := docWith [NavPage "index.md"; NavPage "ref/commands/a.md"] in
  let st := run (updateNav defaultOpts env) doc in
  discovered env = []
  /\ existsb isWarning (logged st) = false
  /\ mkDocsYml st = docWith [NavPage "index.md"]
  /\ written st = [("/proj/mkdocs.yml", docWith [NavPage "index.md"])].
Proof. cbv zeta. repeat split; vm_compute; reflexivity. Qed.

(** The claim of C3 as it is stated, refuted: in the tree
    [["ref/x.md"; {Reference: ["ref/a.md"]}]] the top-level string
    [ref/x.md] starts with [ref/], yet the partition compared against the
    discovered pages is taken from the nested list of the section alone. *)
Lemma C3_counterexample :
  ~ (forall header dir nav s,
       NavPage s ∈ nav ->
       Lodash.startsWith (NavPage s) (dir ++ "/") = true ->
       NavPage s ∈ refFilepaths header dir nav).
Proof.
  intros H.
  specialize (H "Reference" "ref"
                [NavPage "ref/x.md"; NavSection "Reference" [NavPage "ref/a.md"]]
                "ref/x.md").
  assert (Hin : NavPage "ref/x.md"
                ∈ refFilepaths "Reference" "ref"
                    [NavPage "ref/x.md"; NavSection "Reference" [NavPage "ref/a.md"]]).
  { apply H; [left | reflexivity]. }
  revert Hin. apply (proj1 (bool_decide_eq_false _)). vm_compute. reflexivity.
Qed.

(** C3 (amended): for a header that is a plain property name, the array
    that is partitioned is the whole top-level tree when no mapping has the
    header key, and then every top-level string that starts with the
    reference directory and a separator is in the existing-reference
    partition and is not among the entries that are kept; when a mapping
    has the header key, the partition is taken from the nested list of the
    first such mapping only. *)
Theorem C3_reference_partition_scope header dir nav :
  Lodash.plainKey header = true ->
  (findRefDictIndex header nav = (-1)%Z ->
   forall s, NavPage s ∈ nav ->
     Lodash.startsWith (NavPage s) (dir ++ "/") = true ->
     NavPage s ∈ refFilepaths header dir nav
     /\ NavPage s ∉ nonRefFilepaths header dir nav)
  /\ (forall idx : nat, findRefDictIndex header nav = Z.of_nat idx ->
      exists children,
        nav !! idx = Some (NavSection header children)
        /\ refFilepaths header dir nav
           = List.filter (fun v => Lodash.startsWith v (dir ++ "/")) children
        /\ nonRefFilepaths header dir nav
           = List.filter (fun v => negb (Lodash.startsWith v (dir ++ "/"))) children).
Proof.
  intros _. split.
  - intros Hidx s Hin Hs.
    destruct (toplevel_partition header dir nav Hidx) as [-> ->].
    rewrite !list_elem_of_In, !filter_In, <- !list_elem_of_In. split.
    + split; assumption.
    + intros [_ Hneg]. rewrite Hs in Hneg. discriminate.
  - intros idx Hidx. exact (section_partition header dir nav idx Hidx).
Qed.

Lemma C3_reference_partition_scope_witness :
  Lodash.plainKey "Reference" = true
  /\ (findRefDictIndex "Reference" [NavPage "intro.md"; NavPage "ref/a.md"] = (-1)%Z
      /\ NavPage "ref/a.md" ∈ [NavPage "intro.md"; NavPage "ref/a.md"]
      /\ Lodash.startsWith (NavPage "ref/a.md") ("ref" ++ "/") = true
      /\ NavPage "ref/a.md"
         ∈ refFilepaths "Reference" "ref" [NavPage "intro.md"; NavPage "ref/a.md"])
  /\ (findRefDictIndex "Reference"
        [NavPage "ref/x.md"; NavSection "Reference" [NavPage "ref/a.md"]]
      = Z.of_nat 1
      /\ exists children,
           [NavPage "ref/x.md"; NavSection "Reference" [NavPage "ref/a.md"]] !! 1
           = Some (NavSection "Reference" children)
           /\ refFilepaths "Reference" "ref"
                [NavPage "ref/x.md"; NavSection "Reference" [NavPage "ref/a.md"]]
              = List.filter (fun v => Lodash.startsWith v ("ref" ++ "/")) children).
Proof.
  assert (H0 : Lodash.plainKey "Reference" = true) by reflexivity.
  split; [exact H0|]. split.
  - assert (H1 : findRefDictIndex "Reference" [NavPage "intro.md"; NavPage "ref/a.md"]
                 = (-1)%Z) by reflexivity.
    assert (H2 : NavPage "ref/a.md" ∈ [NavPage "intro.md"; NavPage "ref/a.md"])
      by (right; left).
    assert (H3 : Lodash.startsWith (NavPage "ref/a.md") ("ref" ++ "/") = true)
      by reflexivity.
    split; [exact H1|]. split; [exact H2|]. split; [exact H3|].
    exact (proj1 (proj1 (C3_reference_partition_scope "Reference" "ref"
                           [NavPage "intro.md"; NavPage "ref/a.md"] H0)
                    H1 "ref/a.md" H2 H3)).
  - assert (H1 : findRefDictIndex "Reference"
                   [NavPage "ref/x.md"; NavSection "Reference" [NavPage "ref/a.md"]]
                 = Z.of_nat 1) by reflexivity.
    split; [exact H1|].
    destruct (proj2 (C3_reference_partition_scope "Reference" "ref"
                       [NavPage "ref/x.md"; NavSection "Reference" [NavPage "ref/a.md"]]
                       H0)
                1 H1) as (children & Hc & Hr & _).
    exists children. split; assumption.
Defined.

(** C4: when at least one page is discovered, [updateNav] writes the
    navigation document exactly when the discovered pages and the existing
    reference partition differ as sets; when they are the same set, the
    document in memory is left as it was read and nothing is written. *)
Theorem C4_write_iff_sets_differ opts env doc :
  discovered env <> [] ->
  let D := NavPage <$> discovered env in
  let E := refFilepaths (referenceHeader opts) (relReferenceDir env) (navOf doc) in
  let st := run (updateNav opts env) doc in
  (written st <> [] <-> ~ (forall x, x ∈ D <-> x ∈ E))
  /\ ((forall x, x ∈ D <-> x ∈ E) -> mkDocsYml st = doc /\ written st = []).
Proof.
  intros HD D E st. subst D E st.
  destruct (updateNav_reconcile opts env doc (discovered_nonempty env HD))
    as (Hdoc & Hw & _).
  rewrite Hdoc, Hw. split.
  - rewrite reconcileDoc_write_iff, symmetricDiff_nil_iff. reflexivity.
  - intros Hsame. apply symmetricDiff_nil_iff in Hsame.
    rewrite (reconcileDoc_unchanged opts _ _ _ doc _ Hsame). split; reflexivity.
Qed.

Lemma C4_write_iff_sets_differ_witness :
  discovered (envRef [mdFile "a.md"]) <> []
  /\ (forall x,
        x ∈ NavPage <$> discovered (envRef [mdFile "a.md"])
        <-> x ∈ refFilepaths "Reference" (relReferenceDir (envRef [mdFile "a.md"]))
                  (navOf (docWith [NavPage "ref/commands/a.md";
                                   NavPage "ref/commands/a.md"])))
  /\ mkDocsYml (run (updateNav defaultOpts (envRef [mdFile "a.md"]))
                  (docWith [NavPage "ref/commands/a.md"; NavPage "ref/commands/a.md"]))
     = docWith [NavPage "ref/commands/a.md"; NavPage "ref/commands/a.md"]
  /\ written (run (updateNav defaultOpts (envRef [mdFile "a.md"]))
                 (docWith [NavPage "ref/commands/a.md"; NavPage "ref/commands/a.md"]))
     = [].
Proof.
  assert (HD : discovered (envRef [mdFile "a.md"]) <> [])
    by (vm_compute; discriminate).
  assert (Hsame : forall x,
             x ∈ NavPage <$> discovered (envRef [mdFile "a.md"])
             <-> x ∈ refFilepaths "Reference" (relReferenceDir (envRef [mdFile "a.md"]))
                       (navOf (docWith [NavPage "ref/commands/a.md";
                                        NavPage "ref/commands/a.md"]))).
  { intros x.
    replace (NavPage <$> discovered (envRef [mdFile "a.md"]))
      with [NavPage "ref/commands/a.md"] by reflexivity.
    replace (refFilepaths _ _ _)
      with [NavPage "ref/commands/a.md"; NavPage "ref/commands/a.md"]
      by reflexivity.
    rewrite !elem_of_cons. tauto. }
  split; [exact HD|]. split; [exact Hsame|].
  exact (proj2 (C4_write_iff_sets_differ defaultOpts (envRef [mdFile "a.md"])
                  (docWith [NavPage "ref/commands/a.md"; NavPage "ref/commands/a.md"])
                  HD) Hsame).
Defined.



(** C6: TypeDoc writes into the directory of the input documents itself, so
    the reference directory relative to it is the empty string, the prefix
    that recognises reference entries is ["/"], and the discovered page is
    [commands/a.md].  The first run writes the tree with that page; the
    second run, on the tree just written and the same listing, does not
    recognise the page as a reference entry, finds a difference again and
    writes the tree with the page a second time. *)
Theorem C6_second_run_writes_again :
  let env := envSameDir [mdFile "a.md"] in
  let first := run (updateNav defaultOpts env) (docWith [NavPage "index.md"]) in
  let second := run (updateNav defaultOpts env) (mkDocsYml first) in
  relReferenceDir env = ""
  /\ discovered env = ["commands/a.md"]
  /\ written first
     = [("/proj/mkdocs.yml", docWith [NavPage "index.md"; NavPage "commands/a.md"])]
  /\ written second
     = [("/proj/mkdocs.yml",
         docWith [NavPage "index.md"; NavPage "commands/a.md";
                  NavPage "commands/a.md"])].
Proof. cbv zeta. repeat split; vm_compute; reflexivity. Qed.

(** C8: the state that a run of [updateNav] ends in (the document in
    memory, the log and the files written) is the same with [dryRun] set
    and with [dryRun] unset. *)
Theorem C8_dryRun_not_consulted opts env doc :
  run (updateNav (with_dryRun true opts) env) doc
  = run (updateNav (with_dryRun false opts) env) doc.
Proof. reflexivity. Qed.

(** C10: when the document has no [nav] key or an empty [nav] list,
    [noReferenceHeader] is unset and at least one page is discovered, the
    tree is rewritten to the discovered paths, as plain strings and
    without a section, and the document is written. *)
Theorem C10_empty_nav_becomes_flat_list opts env doc :
  nav doc = None \/ nav doc = Some [] ->
  noReferenceHeader opts = false ->
  discovered env <> [] ->
  let doc' := {| docs_dir := docs_dir doc;
                 nav := Some (NavPage <$> discovered env) |} in
  isStringArray (navOf doc) = true
  /\ mkDocsYml (run (updateNav opts env) doc) = doc'
  /\ written (run (updateNav opts env) doc) = [(mkDocsYmlPath env, doc')].
Proof.
  intros Hnav Hno HD doc'. subst doc'.
  assert (Hempty : navOf doc = []).
  { unfold navOf. destruct Hnav as [-> | ->]; reflexivity. }
  destruct (updateNav_reconcile opts env doc (discovered_nonempty env HD))
    as (Hdoc & Hw & _).
  rewrite Hdoc, Hw.
  assert (Hdiff : symmetricDiff (referenceHeader opts) (relReferenceDir env)
                    (navOf doc) (discovered env) <> []).
  { apply symmetricDiff_no_refs; [|exact HD]. rewrite Hempty. reflexivity. }
  destruct (reconcileDoc_flat opts (mkDocsYmlPath env) (relMkDocsYmlPath env)
              (relReferenceDir env) doc (discovered env) Hdiff) as [E1 E2].
  { rewrite Hno, Hempty. reflexivity. }
  rewrite E1, E2, Hempty. repeat split; reflexivity.
Qed.

Lemma C10_empty_nav_becomes_flat_list_witness :
  (nav {| docs_dir := None; nav := None |} = None
   \/ nav {| docs_dir := None; nav := None |} = Some [])
  /\ noReferenceHeader defaultOpts = false
  /\ discovered (envRef [mdFile "a.md"; mdFile "b.md"]) <> []
  /\ mkDocsYml (run (updateNav defaultOpts (envRef [mdFile "a.md"; mdFile "b.md"]))
                  {| docs_dir := None; nav := None |})
     = docWith [NavPage "ref/commands/a.md"; NavPage "ref/commands/b.md"].
Proof.
  assert (H1 : nav {| docs_dir := None; nav := None |} = None
               \/ nav {| docs_dir := None; nav := None |} = Some [])
    by (left; reflexivity).
  assert (H2 : noReferenceHeader defaultOpts = false) by reflexivity.
  assert (H3 : discovered (envRef [mdFile "a.md"; mdFile "b.md"]) <> [])
    by (vm_compute; discriminate).
  split; [exact H1|]. split; [exact H2|]. split; [exact H3|].
  exact (proj1 (proj2 (C10_empty_nav_becomes_flat_list defaultOpts
                         (envRef [mdFile "a.md"; mdFile "b.md"])
                         {| docs_dir := None; nav := None |} H1 H2 H3))).
Defined.

(** C9: for a header that is a plain property name, when a reference
    section is found at index [idx] and a rewrite happens, the tree keeps
    its length, every top-level entry at another index is the entry that
    was there, the entry at [idx] is still a mapping with the header key,
    found at the same index, and the other key of the document is
    untouched: only the list under the header key is replaced, by the
    entries of the old list that are not reference pages followed by the
    discovered pages. *)
Theorem C9_section_rewrite_frame opts path rel dir doc D (idx : nat) :
  Lodash.plainKey (referenceHeader opts) = true ->
  findRefDictIndex (referenceHeader opts) (navOf doc) = Z.of_nat idx ->
  symmetricDiff (referenceHeader opts) dir (navOf doc) D <> [] ->
  exists nav' children children',
    navOf doc !! idx = Some (NavSection (referenceHeader opts) children)
    /\ nav (mkDocsYml (reconcileDoc opts path rel dir doc D)) = Some nav'
    /\ List.length nav' = List.length (navOf doc)
    /\ (forall j, j <> idx -> nav' !! j = navOf doc !! j)
    /\ nav' !! idx = Some (NavSection (referenceHeader opts) children')
    /\ children' = List.filter (fun v => negb (Lodash.startsWith v (dir ++ "/")))
                     children
                   ++ (NavPage <$> D)
    /\ findRefDictIndex (referenceHeader opts) nav' = Z.of_nat idx
    /\ docs_dir (mkDocsYml (reconcileDoc opts path rel dir doc D)) = docs_dir doc.
Proof.
  intros _ Hidx Hdiff.
  destruct (reconcileDoc_section opts path rel dir doc D idx Hdiff Hidx) as [Hdoc _].
  destruct (section_partition (referenceHeader opts) dir (navOf doc) idx Hidx)
    as (children & Hk & _ & Hnon).
  rewrite Hdoc. cbn [nav docs_dir]. rewrite Hnon.
  eexists. exists children. eexists. split; [exact Hk|]. split; [reflexivity|].
  split; [apply length_insert|].
  split; [intros j Hj; apply list_lookup_insert_ne; congruence|].
  split; [apply list_lookup_insert_eq; eapply lookup_lt_Some; exact Hk|].
  split; [reflexivity|].
  split; [apply findRefDictIndex_insert; exact Hidx | reflexivity].
Qed.

Lemma C9_section_rewrite_frame_witness :
  Lodash.plainKey (referenceHeader defaultOpts) = true
  /\ findRefDictIndex (referenceHeader defaultOpts)
       (navOf (docWith [NavPage "intro.md";
                        NavSection "Reference" [NavPage "ref/a.md"; NavPage "notes.md"];
                        NavSection "Guides" [NavPage "guide.md"]]))
     = Z.of_nat 1
  /\ symmetricDiff (referenceHeader defaultOpts) "ref"
       (navOf (docWith [NavPage "intro.md";
                        NavSection "Reference" [NavPage "ref/a.md"; NavPage "notes.md"];
                        NavSection "Guides" [NavPage "guide.md"]]))
       ["ref/c.md"] <> []
  /\ exists nav' children',
       nav (mkDocsYml
              (reconcileDoc defaultOpts "/proj/mkdocs.yml" "mkdocs.yml" "ref"
                 (docWith [NavPage "intro.md";
                           NavSection "Reference" [NavPage "ref/a.md"; NavPage "notes.md"];
                           NavSection "Guides" [NavPage "guide.md"]])
                 ["ref/c.md"])) = Some nav'
       /\ nav' !! 0 = Some (NavPage "intro.md")
       /\ nav' !! 2 = Some (NavSection "Guides" [NavPage "guide.md"])
       /\ nav' !! 1 = Some (NavSection "Reference" children')
       /\ children' = [NavPage "notes.md"; NavPage "ref/c.md"].
Proof.
  assert (Hkey : Lodash.plainKey (referenceHeader defaultOpts) = true) by reflexivity.
  assert (Hidx : findRefDictIndex (referenceHeader defaultOpts)
                   (navOf (docWith [NavPage "intro.md";
                                    NavSection "Reference"
                                      [NavPage "ref/a.md"; NavPage "notes.md"];
                                    NavSection "Guides" [NavPage "guide.md"]]))
                 = Z.of_nat 1) by reflexivity.
  assert (Hdiff : symmetricDiff (referenceHeader defaultOpts) "ref"
                    (navOf (docWith [NavPage "intro.md";
                                     NavSection "Reference"
                                       [NavPage "ref/a.md"; NavPage "notes.md"];
                                     NavSection "Guides" [NavPage "guide.md"]]))
                    ["ref/c.md"] <> []) by (vm_compute; discriminate).
  split; [exact Hkey|]. split; [exact Hidx|]. split; [exact Hdiff|].
  destruct (C9_section_rewrite_frame defaultOpts "/proj/mkdocs.yml" "mkdocs.yml"
              "ref" _ _ 1 Hkey Hidx Hdiff)
    as (nav' & children & children' & Hk & Hnav & _ & Hother & Hsec & Hch & _ & _).
  exists nav', children'.
  split; [exact Hnav|].
  split; [rewrite (Hother 0) by lia; reflexivity|].
  split; [rewrite (Hother 2) by lia; reflexivity|].
  split; [exact Hsec|].
  injection Hk as <-. rewrite Hch. reflexivity.
Defined.

(** C7: for a header that is a plain property name, on every rewrite the
    array that was partitioned (the nested list of the reference section
    when there is one, the top-level tree otherwise) and the array that
    replaces it are such that the entries of the first that do not start
    with the reference directory and a separator are the head of the
    second, in the order of the input: any two of them keep their relative
    order.  This holds in the three branches: the nested list replaced in
    place, the tree followed by an appended section, and the flat tree. *)
Theorem C7_non_reference_order_preserved opts path rel dir doc D :
  Lodash.plainKey (referenceHeader opts) = true ->
  symmetricDiff (referenceHeader opts) dir (navOf doc) D <> [] ->
  let header := referenceHeader opts in
  let isRef := fun v => Lodash.startsWith v (dir ++ "/") in
  exists nav' source result,
    nav (mkDocsYml (reconcileDoc opts path rel dir doc D)) = Some nav'
    /\ ((exists idx : nat,
           findRefDictIndex header (navOf doc) = Z.of_nat idx
           /\ navOf doc !! idx = Some (NavSection header source)
           /\ nav' = <[idx := NavSection header result]> (navOf doc)
           /\ result = List.filter (fun v => negb (isRef v)) source
                         ++ (NavPage <$> D))
        \/ (findRefDictIndex header (navOf doc) = (-1)%Z
            /\ noReferenceHeader opts || negb (isStringArray (navOf doc)) = true
            /\ source = navOf doc /\ nav' = result
            /\ result = List.filter (fun v => negb (isRef v)) source
                          ++ [NavSection header (NavPage <$> D)])
        \/ (findRefDictIndex header (navOf doc) = (-1)%Z
            /\ noReferenceHeader opts || negb (isStringArray (navOf doc)) = false
            /\ source = navOf doc /\ nav' = result
            /\ result = List.filter (fun v => negb (isRef v)) source
                          ++ (NavPage <$> D)))
    /\ (forall k e,
          List.filter (fun v => negb (isRef v)) source !! k = Some e ->
          result !! k = Some e)
    /\ (forall i j a b,
          i < j -> source !! i = Some a -> source !! j = Some b ->
          isRef a = false -> isRef b = false ->
          exists i' j', i' < j' /\ result !! i' = Some a /\ result !! j' = Some b).
Proof.
  intros _ Hdiff header isRef.
  assert (Horder : forall source tail result,
             result = List.filter (fun v => negb (isRef v)) source ++ tail ->
             (forall k e,
                List.filter (fun v => negb (isRef v)) source !! k = Some e ->
                result !! k = Some e)
             /\ (forall i j a b,
                   i < j -> source !! i = Some a -> source !! j = Some b ->
                   isRef a = false -> isRef b = false ->
                   exists i' j', i' < j' /\ result !! i' = Some a
                                 /\ result !! j' = Some b)).
  { intros source tail result ->. split.
    - intros k e Hk. apply lookup_app_l_Some. exact Hk.
    - intros i j a b Hij Hi Hj Ha Hb.
      destruct (filter_keeps_order (fun v => negb (isRef v)) source i j a b Hij Hi Hj)
        as (i' & j' & Hlt & Hi' & Hj'); [rewrite Ha; reflexivity | rewrite Hb; reflexivity |].
      exists i', j'. split; [exact Hlt|].
      split; apply lookup_app_l_Some; assumption. }
  destruct (findRefDictIndex_cases header (navOf doc)) as [E|(k & children & E & Hk)].
  - destruct (toplevel_partition header dir (navOf doc) E) as [_ Hnon].
    destruct (noReferenceHeader opts || negb (isStringArray (navOf doc))) eqn:Hhdr.
    + destruct (reconcileDoc_added opts path rel dir doc D Hdiff E Hhdr) as [-> _].
      fold header. rewrite Hnon. cbn [nav].
      eexists. exists (navOf doc). eexists. split; [reflexivity|]. split.
      * right; left. split; [exact E|]. repeat split.
      * eapply Horder. reflexivity.
    + destruct (reconcileDoc_flat opts path rel dir doc D Hdiff Hhdr) as [-> _].
      fold header. rewrite Hnon. cbn [nav].
      eexists. exists (navOf doc). eexists. split; [reflexivity|]. split.
      * right; right. split; [exact E|]. repeat split.
      * eapply Horder. reflexivity.
  - destruct (reconcileDoc_section opts path rel dir doc D k Hdiff E) as [-> _].
    destruct (section_partition header dir (navOf doc) k E) as (ch & Hch & _ & Hnon).
    fold header. rewrite Hnon. cbn [nav].
    eexists. exists ch. eexists. split; [reflexivity|]. split.
    + left. exists k. split; [exact E|]. split; [exact Hch|]. split; reflexivity.
    + eapply Horder. reflexivity.
Qed.

Lemma C7_non_reference_order_preserved_witness :
  Lodash.plainKey (referenceHeader defaultOpts) = true
  /\ (symmetricDiff (referenceHeader defaultOpts) "ref"
        (navOf (docWith [NavPage "b.md"; NavPage "ref/x.md"; NavPage "a.md"]))
        ["ref/y.md"] <> []
      /\ nav (mkDocsYml
                (reconcileDoc defaultOpts "/proj/mkdocs.yml" "mkdocs.yml" "ref"
                   (docWith [NavPage "b.md"; NavPage "ref/x.md"; NavPage "a.md"])
                   ["ref/y.md"]))
         = Some [NavPage "b.md"; NavPage "a.md"; NavPage "ref/y.md"])
  /\ (symmetricDiff (referenceHeader defaultOpts) "ref"
        (navOf (docWith [NavPage "intro.md";
                         NavSection "Reference"
                           [NavPage "b.md"; NavPage "ref/x.md"; NavPage "a.md"]]))
        ["ref/y.md"] <> []
      /\ nav (mkDocsYml
                (reconcileDoc defaultOpts "/proj/mkdocs.yml" "mkdocs.yml" "ref"
                   (docWith [NavPage "intro.md";
                             NavSection "Reference"
                               [NavPage "b.md"; NavPage "ref/x.md"; NavPage "a.md"]])
                   ["ref/y.md"]))
         = Some [NavPage "intro.md";
                 NavSection "Reference"
                   [NavPage "b.md"; NavPage "a.md"; NavPage "ref/y.md"]]).
Proof.
  assert (Hkey : Lodash.plainKey (referenceHeader defaultOpts) = true) by reflexivity.
  split; [exact Hkey|]. split.
  - assert (Hdiff : symmetricDiff (referenceHeader defaultOpts) "ref"
                      (navOf (docWith [NavPage "b.md"; NavPage "ref/x.md";
                                       NavPage "a.md"]))
                      ["ref/y.md"] <> []) by (vm_compute; discriminate).
    split; [exact Hdiff|].
    destruct (C7_non_reference_order_preserved defaultOpts "/proj/mkdocs.yml"
                "mkdocs.yml" "ref" _ _ Hkey Hdiff)
      as (nav' & source & result & Hnav & Hcases & _ & _).
    rewrite Hnav. f_equal.
    destruct Hcases as [(idx & Hidx & _) | [(_ & Hhdr & _) | (_ & _ & -> & -> & ->)]].
    + exfalso. revert Hidx. vm_compute. destruct idx; discriminate.
    + exfalso. revert Hhdr. vm_compute. discriminate.
    + reflexivity.
  - assert (Hdiff : symmetricDiff (referenceHeader defaultOpts) "ref"
                      (navOf (docWith [NavPage "intro.md";
                                       NavSection "Reference"
                                         [NavPage "b.md"; NavPage "ref/x.md";
                                          NavPage "a.md"]]))
                      ["ref/y.md"] <> []) by (vm_compute; discriminate).
    split; [exact Hdiff|].
    destruct (C7_non_reference_order_preserved defaultOpts "/proj/mkdocs.yml"
                "mkdocs.yml" "ref" _ _ Hkey Hdiff)
      as (nav' & source & result & Hnav & Hcases & _ & _).
    rewrite Hnav. f_equal.
    destruct Hcases as [(idx & Hidx & Hsrc & -> & ->) | [(E & _) | (E & _)]].
    + assert (idx = 1).
      { match type of Hidx with
        | ?found = _ => assert (Hc : found = 1%Z) by reflexivity; rewrite Hc in Hidx
        end. lia. }
      subst idx. injection Hsrc as <-. reflexivity.
    + exfalso. revert E. vm_compute. discriminate.
    + exfalso. revert E. vm_compute. discriminate.
Defined.


(** ** Further properties of the stages *)

Module StageFacts.

Import Model Nav LodashFacts NavFacts RunFacts Idempotence.

Lemma filter_split_perm {A : Type} (f : A -> bool) (l : list A) :
  List.filter f l ++ List.filter (fun x => negb (f x)) l ≡ₚ l.
Proof.
  induction l as [|x l IH]; simpl; [reflexivity|].
  destruct (f x); simpl.
  - constructor. exact IH.
  - rewrite <- Permutation_middle. constructor. exact IH.
Qed.

Lemma kept_not_reference header dir nav e :
  e ∈ nonRefFilepaths header dir nav ->
  Lodash.startsWith e (dir ++ "/") = true -> False.
Proof.
  unfold nonRefFilepaths. rewrite partitionRefArray_snd.
  intros He Hsw. apply list_elem_of_In, filter_In in He as [_ H].
  rewrite Hsw in H. discriminate.
Qed.

Lemma isStringArray_app a b :
  isStringArray (a ++ b) = isStringArray a && isStringArray b.
Proof. unfold isStringArray, Lodash.every. apply forallb_app. Qed.

Lemma isStringArray_filter f l :
  isStringArray l = true -> isStringArray (List.filter f l) = true.
Proof.
  unfold isStringArray, Lodash.every. rewrite !forallb_forall.
  intros H x Hx. apply filter_In in Hx as [Hx _]. exact (H x Hx).
Qed.

Lemma isStringArray_pages (D : list string) : isStringArray (NavPage <$> D) = true.
Proof. induction D as [|d D IH]; [reflexivity | exact IH]. Qed.

(** The array that the next run partitions, after a rewrite: the discovered
    pages, behind the entries that were kept unless these stay at top
    level, before the section that is appended. *)
Lemma reconcileDoc_target opts path rel dir doc D :
  symmetricDiff (referenceHeader opts) dir (navOf doc) D <> [] ->
  let nav' := navOf (mkDocsYml (reconcileDoc opts path rel dir doc D)) in
  let target' := partitionTarget (referenceHeader opts) nav'
                   (findRefDictIndex (referenceHeader opts) nav') in
  target' = nonRefFilepaths (referenceHeader opts) dir (navOf doc) ++ (NavPage <$> D)
  \/ target' = NavPage <$> D.
Proof.
  intros Hdiff. cbv zeta.
  set (header := referenceHeader opts) in *.
  destruct (findRefDictIndex_cases header (navOf doc)) as [E|(k & children & E & Hk)].
  - destruct (toplevel_partition header dir (navOf doc) E) as [_ Hnon].
    assert (Hnosec : forall c e, e ∈ nonRefFilepaths header dir (navOf doc) ->
                                 e <> NavSection header c).
    { intros c e He ->. rewrite Hnon in He. apply elem_of_filter_bool in He.
      exact (findRefDictIndex_none _ _ E c He). }
    destruct (noReferenceHeader opts || negb (isStringArray (navOf doc))) eqn:Hhdr.
    + destruct (reconcileDoc_added opts path rel dir doc D Hdiff E Hhdr) as [-> _].
      unfold navOf at 1 2; cbn [nav default]; unfold id. fold header.
      set (kept := nonRefFilepaths header dir (navOf doc)) in *.
      assert (Hidx : findRefDictIndex header (kept ++ [NavSection header (NavPage <$> D)])
                     = Z.of_nat (List.length kept)).
      { apply (findRefDictIndex_first _ _ _ (NavPage <$> D)).
        - rewrite lookup_app_r by lia. rewrite Nat.sub_diag. reflexivity.
        - intros j c Hj Hlook. rewrite lookup_app_l in Hlook by exact Hj.
          apply (Hnosec c (NavSection header c)); [|reflexivity].
          apply list_elem_of_lookup. eauto. }
      right. apply (partitionTarget_section _ _ _ _ Hidx).
      rewrite lookup_app_r by lia. rewrite Nat.sub_diag. reflexivity.
    + destruct (reconcileDoc_flat opts path rel dir doc D Hdiff Hhdr) as [-> _].
      unfold navOf at 1 2; cbn [nav default]; unfold id. fold header.
      set (kept := nonRefFilepaths header dir (navOf doc)) in *.
      assert (Hidx : findRefDictIndex header (kept ++ (NavPage <$> D)) = (-1)%Z).
      { apply findRefDictIndex_absent. intros c Hc.
        apply elem_of_app in Hc as [Hc|Hc].
        - exact (Hnosec c _ Hc eq_refl).
        - apply list_elem_of_fmap in Hc as (d & Hd & _). discriminate. }
      left. apply (partitionTarget_none _ _ Hidx).
  - destruct (reconcileDoc_section opts path rel dir doc D k Hdiff E) as [-> _].
    unfold navOf at 1 2; cbn [nav default]; unfold id. fold header.
    set (children' := nonRefFilepaths header dir (navOf doc) ++ (NavPage <$> D)).
    pose proof (findRefDictIndex_insert header (navOf doc) k children' E) as Hidx.
    left. apply (partitionTarget_section _ _ _ _ Hidx).
    apply list_lookup_insert_eq. eapply lookup_lt_Some; exact Hk.
Qed.

(** The last line of the log of the reconciliation tells whether the
    document was written. *)
Lemma reconcileDoc_last_log opts path rel dir doc D :
  last (logged (reconcileDoc opts path rel dir doc D))
  = Some (if decide (symmetricDiff (referenceHeader opts) dir (navOf doc) D = [])
          then InfoNoChanges rel else SuccessUpdated rel).
Proof.
  destruct (decide _) as [E|E].
  - rewrite (reconcileDoc_unchanged opts path rel dir doc D E). reflexivity.
  - run_reconcile.
    destruct (Lodash.xor (NavPage <$> D) refs) as [|x diff]; [congruence|].
    cbn [List.length Nat.eqb negb].
    destruct (noReferenceHeader opts || negb (isStringArray (navOf doc)));
      [destruct (0 <=? _)%Z|]; reflexivity.
Qed.

(** Every run of [updateNav] either stops at the empty listing or is the
    reconciliation of the discovered pages. *)
Lemma updateNav_cases opts env doc :
  (commandDocFileEnts env = []
   /\ run (updateNav opts env) doc
      = {| mkDocsYml := doc;
           logged := [WarnNoReferenceDocs
                        (NodePath.joinAbs (typeDocOutDir env) "commands")];
           written := [] |})
  \/ (commandDocFileEnts env <> []
      /\ mkDocsYml (run (updateNav opts env) doc)
         = mkDocsYml (reconcileDoc opts (mkDocsYmlPath env) (relMkDocsYmlPath env)
                        (relReferenceDir env) doc (discovered env))
      /\ written (run (updateNav opts env) doc)
         = written (reconcileDoc opts (mkDocsYmlPath env) (relMkDocsYmlPath env)
                      (relReferenceDir env) doc (discovered env))
      /\ logged (run (updateNav opts env) doc)
         = DebugNewRefFilepaths (discovered env)
             :: logged (reconcileDoc opts (mkDocsYmlPath env) (relMkDocsYmlPath env)
                          (relReferenceDir env) doc (discovered env))).
Proof.
  destruct (commandDocFileEnts env) as [|ent ents] eqn:E.
  - left. split; [reflexivity|]. apply updateNav_empty_listing. exact E.
  - right. assert (Hne : commandDocFileEnts env <> []) by (rewrite E; discriminate).
    split; [discriminate|]. exact (updateNav_reconcile opts env doc Hne).
Qed.

(** The document that the reconciliation leaves: unchanged, or one of the
    three rewrites. *)
Lemma reconcileDoc_nav_cases opts path rel dir doc D :
  let st := reconcileDoc opts path rel dir doc D in
  let header := referenceHeader opts in
  let kept := nonRefFilepaths header dir (navOf doc) in
  docs_dir (mkDocsYml st) = docs_dir doc
  /\ ((mkDocsYml st = doc /\ written st = [])
      \/ (written st = [(path, mkDocsYml st)]
          /\ ((exists idx : nat,
                 findRefDictIndex header (navOf doc) = Z.of_nat idx
                 /\ nav (mkDocsYml st)
                    = Some (<[idx := NavSection header (kept ++ (NavPage <$> D))]>
                              (navOf doc)))
              \/ (findRefDictIndex header (navOf doc) = (-1)%Z
                  /\ noReferenceHeader opts || negb (isStringArray (navOf doc)) = true
                  /\ nav (mkDocsYml st)
                     = Some (kept ++ [NavSection header (NavPage <$> D)]))
              \/ (noReferenceHeader opts || negb (isStringArray (navOf doc)) = false
                  /\ nav (mkDocsYml st) = Some (kept ++ (NavPage <$> D)))))).
Proof.
  cbv zeta.
  destruct (decide (symmetricDiff (referenceHeader opts) dir (navOf doc) D = []))
    as [E|Hdiff].
  { rewrite (reconcileDoc_unchanged opts path rel dir doc D E). cbn. auto. }
  destruct (noReferenceHeader opts || negb (isStringArray (navOf doc))) eqn:Hhdr.
  - destruct (findRefDictIndex_cases (referenceHeader opts) (navOf doc))
      as [E|(k & children & E & Hk)].
    + destruct (reconcileDoc_added opts path rel dir doc D Hdiff E Hhdr) as [-> ->].
      cbn. split; [reflexivity|]. right. split; [reflexivity|]. right; left. auto.
    + destruct (reconcileDoc_section opts path rel dir doc D k Hdiff E) as [-> ->].
      cbn. split; [reflexivity|]. right. split; [reflexivity|]. left. eauto.
  - destruct (reconcileDoc_flat opts path rel dir doc D Hdiff Hhdr) as [-> ->].
    cbn. split; [reflexivity|]. right. split; [reflexivity|]. right; right. auto.
Qed.

(** A run writes once, the document it leaves, or leaves the document as
    it was read. *)
Lemma updateNav_outcome opts env doc :
  (written (run (updateNav opts env) doc) = []
   /\ mkDocsYml (run (updateNav opts env) doc) = doc)
  \/ written (run (updateNav opts env) doc)
     = [(mkDocsYmlPath env, mkDocsYml (run (updateNav opts env) doc))].
Proof.
  destruct (updateNav_cases opts env doc) as [[_ ->] | (_ & -> & -> & _)];
    [left; split; reflexivity|].
  destruct (reconcileDoc_nav_cases opts (mkDocsYmlPath env) (relMkDocsYmlPath env)
              (relReferenceDir env) doc (discovered env))
    as (_ & [[Hdoc Hw] | (Hw & _)]).
  - left. split; assumption.
  - right. exact Hw.
Qed.

End StageFacts.

(** ** Facts about the resolution of the locations *)

Module ResolveFacts.

Import Model Nav Resolve LodashFacts NavFacts RunFacts Idempotence PathFacts.

Lemma split_nonempty p : split p <> [].
Proof.
  destruct p as [|c p]; simpl; [discriminate|].
  destruct (Ascii.eqb c "/"); [discriminate|].
  destruct (split p); discriminate.
Qed.

Lemma split_noSlash p : Forall (fun seg => noSlash seg = true) (split p).
Proof.
  induction p as [|c p IH]; simpl.
  - repeat constructor.
  - destruct (Ascii.eqb c "/") eqn:E.
    + constructor; [reflexivity | exact IH].
    + destruct (split p) as [|seg segs]; [repeat constructor; simpl|].
      * unfold noSlash; simpl. rewrite E. reflexivity.
      * inversion IH as [|? ? Hseg Hsegs]; subst. constructor; [|exact Hsegs].
        unfold noSlash in *; simpl. rewrite E. exact Hseg.
Qed.

Lemma split_plain_id seg : noSlash seg = true -> split seg = [seg].
Proof.
  induction seg as [|c seg IH]; intros H; [reflexivity|].
  unfold noSlash in H; simpl in H. apply andb_true_iff in H as [Hc H].
  apply negb_true_iff in Hc. simpl. rewrite Hc, (IH H). reflexivity.
Qed.

Lemma split_append a b :
  split (a ++ "/" ++ b)%string = split a ++ split b.
Proof.
  induction a as [|c a IH].
  - reflexivity.
  - change (split (String c (a ++ "/" ++ b)%string) = split (String c a) ++ split b).
    simpl. rewrite IH. destruct (Ascii.eqb c "/"); [reflexivity|].
    pose proof (split_nonempty a) as Hne.
    destruct (split a) as [|seg segs]; [contradiction | reflexivity].
Qed.

Lemma split_concat (l : list string) :
  l <> [] -> Forall (fun seg => noSlash seg = true) l ->
  split (String.concat "/" l) = l.
Proof.
  induction l as [|x l IH]; intros Hne Hl; [contradiction|].
  inversion Hl as [|? ? Hx Hrest]; subst.
  destruct l as [|y l]; [exact (split_plain_id x Hx)|].
  change (String.concat "/" (x :: y :: l))
    with (x ++ "/" ++ String.concat "/" (y :: l))%string.
  rewrite split_append, (split_plain_id x Hx), IH by (discriminate || assumption).
  reflexivity.
Qed.

Lemma plain_noSlash seg : plain seg = true -> noSlash seg = true.
Proof. unfold plain. rewrite !andb_true_iff. tauto. Qed.

Lemma plain_pushed seg :
  plain seg = true ->
  String.eqb seg "" || String.eqb seg "." = false /\ String.eqb seg ".." = false.
Proof.
  unfold plain. rewrite !andb_true_iff, !negb_true_iff.
  intros [[[-> ->] ->] _]. split; reflexivity.
Qed.

(** Normalisation leaves only plain segments. *)
Lemma normalizeFrom_plain stack segs :
  Forall (fun seg => plain seg = true) stack ->
  Forall (fun seg => noSlash seg = true) segs ->
  Forall (fun seg => plain seg = true) (normalizeFrom stack segs).
Proof.
  revert stack; induction segs as [|seg segs IH]; intros stack Hst Hsegs; simpl.
  - rewrite Forall_forall in *. intros x Hx. apply Hst.
    apply list_elem_of_In. apply list_elem_of_In in Hx. apply in_rev. exact Hx.
  - inversion Hsegs as [|? ? Hseg Hrest]; subst.
    destruct (String.eqb seg "" || String.eqb seg ".") eqn:E1; [apply IH; assumption|].
    destruct (String.eqb seg "..") eqn:E2.
    + apply IH; [|assumption]. destruct stack; [constructor|].
      inversion Hst; assumption.
    + apply IH; [|assumption]. constructor; [|assumption].
      apply orb_false_iff in E1 as [Ea Eb].
      unfold plain. rewrite Ea, Eb, E2, Hseg. reflexivity.
Qed.

Lemma normalizeFrom_push stack l rest :
  Forall (fun seg => plain seg = true) l ->
  normalizeFrom stack (l ++ rest) = normalizeFrom (rev l ++ stack) rest.
Proof.
  revert stack; induction l as [|x l IH]; intros stack Hl; [reflexivity|].
  inversion Hl as [|? ? Hx Hrest]; subst.
  destruct (plain_pushed x Hx) as [E1 E2].
  simpl. rewrite E1, E2, (IH _ Hrest), <- app_assoc. reflexivity.
Qed.

Lemma normalizeFrom_up stack n rest :
  normalizeFrom stack (repeat ".." n ++ rest) = normalizeFrom (drop n stack) rest.
Proof.
  revert stack; induction n as [|n IH]; intros stack; [reflexivity|].
  simpl. rewrite IH. destruct stack; simpl; [rewrite drop_nil|]; reflexivity.
Qed.

Lemma normalize_plain l :
  Forall (fun seg => plain seg = true) l -> normalize l = l.
Proof.
  intros Hl. unfold normalize.
  rewrite <- (app_nil_r l) at 1. rewrite (normalizeFrom_push [] l [] Hl).
  simpl. rewrite app_nil_r. apply rev_involutive.
Qed.

Lemma stripCommon_spec from to up down :
  NodePath.stripCommon from to = (up, down) ->
  exists common, from = common ++ up /\ to = common ++ down.
Proof.
  revert to; induction from as [|f from IH]; intros to H.
  - simpl in H. injection H as <- <-. exists []. auto.
  - destruct to as [|t to]; simpl in H.
    + injection H as <- <-. exists []. auto.
    + destruct (String.eqb_spec f t) as [->|_].
      * destruct (IH to H) as (c & -> & ->). exists (t :: c). auto.
      * injection H as <- <-. exists []. auto.
Qed.

Lemma isAbsolute_noSlash seg : noSlash seg = true -> isAbsolute seg = false.
Proof.
  destruct seg as [|c seg]; [reflexivity|]. unfold noSlash; simpl.
  intros H. apply andb_true_iff in H as [Hc _]. apply negb_true_iff in Hc. exact Hc.
Qed.

Lemma isAbsolute_append a b : a <> "" -> isAbsolute (a ++ b)%string = isAbsolute a.
Proof. destruct a; [contradiction | reflexivity]. Qed.

Lemma concat_cons_nonempty x l : x <> "" -> String.concat "/" (x :: l) <> "".
Proof.
  intros Hx. destruct l as [|y l]; [exact Hx|].
  change (String.concat "/" (x :: y :: l))
    with (x ++ "/" ++ String.concat "/" (y :: l))%string.
  destruct x; [contradiction | discriminate].
Qed.

Lemma isAbsolute_concat x l :
  x <> "" -> noSlash x = true -> isAbsolute (String.concat "/" (x :: l)) = false.
Proof.
  intros Hx Hs. destruct l as [|y l]; [exact (isAbsolute_noSlash x Hs)|].
  change (String.concat "/" (x :: y :: l))
    with (x ++ "/" ++ String.concat "/" (y :: l))%string.
  rewrite (isAbsolute_append _ _ Hx). exact (isAbsolute_noSlash x Hs).
Qed.

Lemma plain_nonempty seg : plain seg = true -> seg <> "".
Proof. intros H ->. discriminate H. Qed.

(** The segments of a relative path between normalised directories. *)
Lemma relative_segments (up down : list string) :
  Forall (fun seg => plain seg = true) down ->
  Forall (fun seg => noSlash seg = true) (repeat ".." (List.length up) ++ down)
  /\ (repeat ".." (List.length up) ++ down <> [] ->
      String.concat "/" (repeat ".." (List.length up) ++ down) <> ""
      /\ isAbsolute (String.concat "/" (repeat ".." (List.length up) ++ down)) = false).
Proof.
  intros Hdown.
  assert (Hall : Forall (fun seg => noSlash seg = true /\ seg <> "")
                   (repeat ".." (List.length up) ++ down)).
  { apply Forall_app. split.
    - apply Forall_forall. intros x Hx. apply list_elem_of_In, repeat_spec in Hx.
      subst. split; [reflexivity | discriminate].
    - eapply Forall_impl; [exact Hdown|]. intros x Hx. simpl in Hx.
      split; [exact (plain_noSlash x Hx) | exact (plain_nonempty x Hx)]. }
  split.
  - eapply Forall_impl; [exact Hall|]. intros x [Hx _]. exact Hx.
  - intros Hne. destruct (repeat ".." (List.length up) ++ down) as [|x l];
      [contradiction|].
    inversion Hall as [|? ? [Hs Hx] _]; subst.
    split; [exact (concat_cons_nonempty x l Hx) | exact (isAbsolute_concat x l Hx Hs)].
Qed.

(** Resolving, from a normalised directory, the relative path to another
    normalised directory followed by some plain segments leads to these
    segments below the other directory. *)
Lemma resolveFrom_relative from to extra :
  Forall (fun seg => plain seg = true) from ->
  Forall (fun seg => plain seg = true) to ->
  Forall (fun seg => plain seg = true) extra ->
  let '(up, down) := NodePath.stripCommon from to in
  normalize (from ++ (repeat ".." (List.length up) ++ down) ++ extra) = to ++ extra.
Proof.
  intros Hfrom Hto Hextra.
  destruct (NodePath.stripCommon from to) as [up down] eqn:E.
  destruct (stripCommon_spec _ _ _ _ E) as (c & -> & ->).
  apply Forall_app in Hfrom as [Hc Hup]. apply Forall_app in Hto as [_ Hdown].
  unfold normalize.
  rewrite <- !app_assoc.
  rewrite (normalizeFrom_push [] c _ Hc), (normalizeFrom_push _ up _ Hup).
  rewrite normalizeFrom_up.
  rewrite <- (length_rev up), drop_app_length.
  rewrite (normalizeFrom_push _ down _ Hdown).
  rewrite <- (app_nil_r extra) at 1. rewrite (normalizeFrom_push _ extra [] Hextra).
  simpl. rewrite !app_nil_r, !rev_app_distr, !rev_involutive, <- !app_assoc.
  reflexivity.
Qed.

Lemma resolveFrom_plain dir p :
  Forall (fun seg => noSlash seg = true) dir ->
  Forall (fun seg => plain seg = true) (resolveFrom dir p).
Proof.
  intros Hdir. unfold resolveFrom, normalize.
  apply normalizeFrom_plain; [constructor|].
  destruct (isAbsolute p); [apply split_noSlash|].
  apply Forall_app. split; [exact Hdir | apply split_noSlash].
Qed.

Lemma plain_all_noSlash l :
  Forall (fun seg => plain seg = true) l -> Forall (fun seg => noSlash seg = true) l.
Proof. intros H. eapply Forall_impl; [exact H | exact plain_noSlash]. Qed.

Lemma dirname_noSlash segs :
  Forall (fun seg => noSlash seg = true) segs ->
  Forall (fun seg => noSlash seg = true) (dirname segs).
Proof.
  intros H. unfold dirname. rewrite Forall_forall in *. intros x Hx.
  apply H. apply list_elem_of_In. apply list_elem_of_In in Hx.
  assert (Hin : In x (List.filter (fun seg => negb (String.eqb seg "")) segs)).
  { revert Hx. generalize (List.filter (fun seg => negb (String.eqb seg "")) segs).
    induction l as [|a l IH]; simpl; [tauto|].
    destruct l; [simpl; tauto|]. intros [->|Hx]; [left; reflexivity | right; auto]. }
  apply filter_In in Hin as [Hin _]. exact Hin.
Qed.

Lemma absolutePath_noSlash host loc p :
  Forall (fun seg => noSlash seg = true) (absolutePath host loc p).
Proof.
  unfold absolutePath. destruct (isAbsolute p) eqn:Ep; [apply split_noSlash|].
  apply plain_all_noSlash. unfold resolve, normalize.
  apply normalizeFrom_plain; [constructor|].
  simpl. rewrite Ep. destruct (isAbsolute (cwd loc)).
  - apply Forall_app. split; apply split_noSlash.
  - rewrite <- app_assoc. repeat (apply Forall_app; split); apply split_noSlash.
Qed.

(** The directories that the reconciliation is given are normalised. *)
Lemma resolveEnv_plain host loc typeDocJson doc ents :
  Forall (fun seg => plain seg = true)
    (typeDocOutDir (resolveEnv host loc typeDocJson doc ents))
  /\ Forall (fun seg => plain seg = true)
       (mkDocsDocsDir (resolveEnv host loc typeDocJson doc ents)).
Proof.
  split; cbn [typeDocOutDir mkDocsDocsDir resolveEnv];
    unfold typeDocOutDirOf, mkDocsDocsDirOf;
    apply resolveFrom_plain, dirname_noSlash, absolutePath_noSlash.
Qed.

Lemma normalizeFrom_app stack l rest :
  normalizeFrom stack (l ++ rest)
  = normalizeFrom (rev (normalizeFrom stack l)) rest.
Proof.
  revert stack; induction l as [|seg l IH]; intros stack; simpl.
  - rewrite rev_involutive. reflexivity.
  - destruct (String.eqb seg "" || String.eqb seg "."); [apply IH|].
    destruct (String.eqb seg ".."); apply IH.
Qed.

Lemma stripCommon_refl p : NodePath.stripCommon p p = ([], []).
Proof.
  induction p as [|x p IH]; simpl; [reflexivity|].
  rewrite String.eqb_refl. exact IH.
Qed.

Lemma stripCommon_self_snoc p x : NodePath.stripCommon p (p ++ [x]) = ([], [x]).
Proof.
  induction p as [|y p IH]; simpl; [reflexivity|].
  rewrite String.eqb_refl. exact IH.
Qed.

(** The relative path between two normalised directories is empty exactly
    when they are the same directory. *)
Lemma relative_empty_iff from to :
  Forall (fun seg => plain seg = true) to ->
  NodePath.relative from to = "" <-> from = to.
Proof.
  intros Hto. split.
  - unfold NodePath.relative.
    destruct (NodePath.stripCommon from to) as [up down] eqn:E.
    destruct (stripCommon_spec _ _ _ _ E) as (c & -> & ->).
    apply Forall_app in Hto as [_ Hdown].
    destruct (relative_segments up down Hdown) as [_ Hne].
    destruct (repeat ".." (List.length up) ++ down) as [|x l] eqn:El.
    + intros _. apply app_eq_nil in El as [Hup ->].
      destruct up; [reflexivity | discriminate].
    + intros Hrel. destruct Hne as [Hne _]; [discriminate | contradiction].
  - intros ->. unfold NodePath.relative. rewrite stripCommon_refl. reflexivity.
Qed.

(** From a normalised directory, the relative path to another normalised
    directory joined with a plain name resolves to that name in the other
    directory. *)
Lemma resolveFrom_join_relative from to n :
  Forall (fun seg => plain seg = true) from ->
  Forall (fun seg => plain seg = true) to ->
  plain n = true ->
  resolveFrom from (NodePath.join (NodePath.relative from to) n) = to ++ [n].
Proof.
  intros Hfrom Hto Hn.
  assert (Hextra : Forall (fun seg => plain seg = true) [n]) by (repeat constructor; exact Hn).
  pose proof (resolveFrom_relative from to [n] Hfrom Hto Hextra) as Hres.
  unfold NodePath.relative.
  destruct (NodePath.stripCommon from to) as [up down] eqn:E.
  destruct (stripCommon_spec _ _ _ _ E) as (c & Ec & Et).
  assert (Hdown : Forall (fun seg => plain seg = true) down).
  { rewrite Et in Hto. apply Forall_app in Hto as [_ H]. exact H. }
  destruct (relative_segments up down Hdown) as [Hns Hne].
  unfold resolveFrom, NodePath.join.
  destruct (repeat ".." (List.length up) ++ down) as [|x l] eqn:El.
  - simpl. rewrite (isAbsolute_noSlash n (plain_noSlash n Hn)).
    rewrite (split_plain_id n (plain_noSlash n Hn)). exact Hres.
  - destruct Hne as [Hrel Habs]; [discriminate|].
    destruct (String.eqb_spec (String.concat "/" (x :: l)) "") as [E0|_];
      [contradiction|].
    rewrite (isAbsolute_append _ _ Hrel), Habs.
    assert (Hcons : x :: l <> []) by discriminate.
    rewrite split_append, (split_concat (x :: l) Hcons Hns).
    rewrite (split_plain_id n (plain_noSlash n Hn)). exact Hres.
Qed.

(** The resolved directories depend on the document through [docs_dir]
    only. *)
Lemma resolveEnv_docs_dir host loc typeDocJson doc doc' ents :
  docs_dir doc' = docs_dir doc ->
  resolveEnv host loc typeDocJson doc' ents = resolveEnv host loc typeDocJson doc ents.
Proof. intros H. unfold resolveEnv, mkDocsDocsDirOf. rewrite H. reflexivity. Qed.

(** A call whose listing succeeds is the run of the reconciliation on the
    resolved directories. *)
Lemma updateNavAt_run host opts loc typeDocJson doc ents :
  readdir host (NodePath.joinAbs (typeDocOutDirOf host loc typeDocJson) "commands")
  = Some ents ->
  runAt (updateNavAt host opts loc typeDocJson) doc
  = (Fulfilled, run (updateNav opts (resolveEnv host loc typeDocJson doc ents)) doc).
Proof.
  intros H. unfold runAt, updateNavAt, run, mbind, M_bind, readDoc, mret, M_ret.
  cbn [mkDocsYml initial]. rewrite H.
  destruct (updateNav opts (resolveEnv host loc typeDocJson doc ents) (initial doc))
    as [[] st]. reflexivity.
Qed.

End ResolveFacts.

(** ** Further properties of [updateNav] *)

Import StageFacts Resolve ResolveFacts.

(** X1: the loop of lines 98 to 102 keeps, in the order of the listing, the
    entries that are regular files with a name ending in [.md], each joined
    to the relative [commands] directory; a path is discovered exactly
    when such an entry exists. *)
Theorem X1_discovery_is_filter_then_join relCommandDir ents :
  collectRefFilepaths relCommandDir ents
  = List.map (fun ent => NodePath.join relCommandDir (name ent))
      (List.filter (fun ent => isFile ent && NodePath.endsWith (name ent) ".md") ents)
  /\ forall d,
       d ∈ collectRefFilepaths relCommandDir ents
       <-> exists ent, ent ∈ ents /\ isFile ent = true
                       /\ NodePath.endsWith (name ent) ".md" = true
                       /\ d = NodePath.join relCommandDir (name ent).
Proof.
  assert (Heq : collectRefFilepaths relCommandDir ents
                = List.map (fun ent => NodePath.join relCommandDir (name ent))
                    (List.filter
                       (fun ent => isFile ent && NodePath.endsWith (name ent) ".md")
                       ents)).
  { induction ents as [|ent ents IH]; simpl; [reflexivity|].
    destruct (isFile ent && NodePath.endsWith (name ent) ".md"); simpl;
      rewrite IH; reflexivity. }
  split; [exact Heq|]. intros d. rewrite Heq, list_elem_of_In, in_map_iff. split.
  - intros (ent & <- & Hent). apply filter_In in Hent as [Hin Hp].
    apply andb_true_iff in Hp as [Hf Hmd].
    exists ent. rewrite list_elem_of_In. auto.
  - intros (ent & Hin & Hf & Hmd & ->). exists ent. split; [reflexivity|].
    apply filter_In. rewrite <- list_elem_of_In, Hf, Hmd. auto.
Qed.

(** X2: the two arrays that [partitionRefArray] returns hold, together,
    exactly the entries of the partitioned array, each once per
    occurrence; the first holds only entries that start with the reference
    directory and a separator, the second only entries that do not. *)
Theorem X2_partition_loses_nothing header dir nav :
  refFilepaths header dir nav ++ nonRefFilepaths header dir nav
    ≡ₚ partitionTarget header nav (findRefDictIndex header nav)
  /\ (forall e, e ∈ refFilepaths header dir nav ->
                Lodash.startsWith e (dir ++ "/") = true)
  /\ (forall e, e ∈ nonRefFilepaths header dir nav ->
                Lodash.startsWith e (dir ++ "/") = false).
Proof.
  unfold refFilepaths, nonRefFilepaths.
  rewrite partitionRefArray_fst, partitionRefArray_snd.
  split; [apply filter_split_perm|]. split; intros e He.
  - apply list_elem_of_In, filter_In in He as [_ H]. exact H.
  - apply list_elem_of_In, filter_In in He as [_ H].
    apply negb_true_iff in H. exact H.
Qed.

(** X3: for a header that is a plain property name, [findRefDictIndex]
    returns [-1] exactly when no top-level mapping has the header key, and
    otherwise the index of the first top-level mapping that has it. *)
Theorem X3_findRefDictIndex_first_section header nav :
  Lodash.plainKey header = true ->
  (findRefDictIndex header nav = (-1)%Z
   <-> forall children, NavSection header children ∉ nav)
  /\ (forall idx : nat,
        findRefDictIndex header nav = Z.of_nat idx
        <-> (exists children, nav !! idx = Some (NavSection header children))
            /\ forall j children, j < idx ->
                 nav !! j <> Some (NavSection header children)).
Proof.
  intros _. split.
  - split; [apply findRefDictIndex_none | apply findRefDictIndex_absent].
  - intros idx. split.
    + intros H. split; [|exact (findRefDictIndex_before _ _ _ H)].
      destruct (section_partition header "" nav idx H) as (c & Hc & _). eauto.
    + intros [[c Hc] Hbefore]. exact (findRefDictIndex_first _ _ _ c Hc Hbefore).
Qed.

Lemma X3_findRefDictIndex_first_section_witness :
  Lodash.plainKey "Reference" = true
  /\ findRefDictIndex "Reference"
       [NavSection "Guides" [NavPage "guide.md"];
        NavSection "Reference" [NavPage "ref/a.md"];
        NavSection "Reference" [NavPage "ref/b.md"]] = Z.of_nat 1.
Proof.
  assert (Hkey : Lodash.plainKey "Reference" = true) by reflexivity.
  split; [exact Hkey|].
  apply (proj2 (proj2 (X3_findRefDictIndex_first_section "Reference"
                         [NavSection "Guides" [NavPage "guide.md"];
                          NavSection "Reference" [NavPage "ref/a.md"];
                          NavSection "Reference" [NavPage "ref/b.md"]] Hkey) 1)).
  split; [eexists; reflexivity|].
  intros j children Hj Hlook. destruct j as [|j]; [discriminate Hlook | lia].
Defined.

(** X4: for a header that is a plain property name, a top-level entry that
    does not start with the reference directory and a separator, and is
    not a mapping with the header key, is still in the tree after any run:
    pages of other parts of the site and sections under other titles are
    never dropped. *)
Theorem X4_other_entries_survive opts env doc e :
  Lodash.plainKey (referenceHeader opts) = true ->
  e ∈ navOf doc ->
  Lodash.startsWith e (relReferenceDir env ++ "/") = false ->
  (forall children, e <> NavSection (referenceHeader opts) children) ->
  e ∈ navOf (mkDocsYml (run (updateNav opts env) doc)).
Proof.
  intros _ Hin Hsw Hsec.
  destruct (updateNav_cases opts env doc) as [[_ ->] | (_ & -> & _ & _)];
    [exact Hin|].
  set (header := referenceHeader opts) in *.
  assert (Hkept : findRefDictIndex header (navOf doc) = (-1)%Z ->
                  e ∈ nonRefFilepaths header (relReferenceDir env) (navOf doc)).
  { intros E. destruct (toplevel_partition header (relReferenceDir env) _ E) as [_ ->].
    apply list_elem_of_In, filter_In. rewrite <- list_elem_of_In, Hsw. auto. }
  destruct (reconcileDoc_nav_cases opts (mkDocsYmlPath env) (relMkDocsYmlPath env)
              (relReferenceDir env) doc (discovered env))
    as (_ & [[-> _] | (_ & [(idx & Hidx & Hnav) | [(E & _ & Hnav) | (Hhdr & Hnav)]])]).
  - exact Hin.
  - unfold navOf at 1. rewrite Hnav. cbn.
    destruct (section_partition header "" (navOf doc) idx Hidx) as (c & Hc & _).
    apply list_elem_of_lookup in Hin as [j Hj].
    apply list_elem_of_lookup. exists j.
    rewrite list_lookup_insert_ne; [exact Hj|].
    intros ->. rewrite Hc in Hj. injection Hj as <-. exact (Hsec c eq_refl).
  - unfold navOf at 1. rewrite Hnav. cbn. apply elem_of_app. left. exact (Hkept E).
  - unfold navOf at 1. rewrite Hnav. cbn. apply elem_of_app. left. apply Hkept.
    destruct (findRefDictIndex_cases header (navOf doc)) as [E|(k & c & _ & Hk)];
      [exact E|].
    rewrite (isStringArray_lookup _ _ _ _ Hk), orb_true_r in Hhdr. discriminate.
Qed.

Lemma X4_other_entries_survive_witness :
  Lodash.plainKey (referenceHeader defaultOpts) = true
  /\ NavSection "Guides" [NavPage "guide.md"]
       ∈ navOf (docWith [NavPage "ref/commands/old.md";
                         NavSection "Guides" [NavPage "guide.md"]])
  /\ NavSection "Guides" [NavPage "guide.md"]
       ∈ navOf (mkDocsYml (run (updateNav defaultOpts (envRef [mdFile "a.md"]))
                             (docWith [NavPage "ref/commands/old.md";
                                       NavSection "Guides" [NavPage "guide.md"]]))).
Proof.
  assert (Hkey : Lodash.plainKey (referenceHeader defaultOpts) = true) by reflexivity.
  assert (H1 : NavSection "Guides" [NavPage "guide.md"]
                 ∈ navOf (docWith [NavPage "ref/commands/old.md";
                                   NavSection "Guides" [NavPage "guide.md"]]))
    by (right; left).
  split; [exact Hkey|]. split; [exact H1|].
  apply (X4_other_entries_survive defaultOpts (envRef [mdFile "a.md"]) _ _ Hkey H1).
  - reflexivity.
  - intros children H. discriminate H.
Defined.

(** X5: when the tree is a flat array of strings and [noReferenceHeader] is
    unset, the tree is a flat array of strings after the run as well. *)
Theorem X5_flat_tree_stays_flat opts env doc :
  isStringArray (navOf doc) = true ->
  noReferenceHeader opts = false ->
  isStringArray (navOf (mkDocsYml (run (updateNav opts env) doc))) = true.
Proof.
  intros Hflat Hno.
  destruct (updateNav_cases opts env doc) as [[_ ->] | (_ & -> & _ & _)];
    [exact Hflat|].
  destruct (reconcileDoc_nav_cases opts (mkDocsYmlPath env) (relMkDocsYmlPath env)
              (relReferenceDir env) doc (discovered env))
    as (_ & [[-> _] | (_ & [(idx & Hidx & _) | [(_ & Hhdr & _) | (_ & Hnav)]])]).
  - exact Hflat.
  - rewrite (section_uses_headers _ _ _ Hidx) in Hflat. discriminate.
  - rewrite Hno, Hflat in Hhdr. discriminate.
  - unfold navOf at 1. rewrite Hnav. cbn.
    rewrite isStringArray_app, isStringArray_pages, andb_true_r.
    unfold nonRefFilepaths. rewrite partitionRefArray_snd.
    apply isStringArray_filter.
    destruct (findRefDictIndex_cases (referenceHeader opts) (navOf doc))
      as [E|(k & c & _ & Hk)].
    + rewrite (partitionTarget_none _ _ E). exact Hflat.
    + rewrite (isStringArray_lookup _ _ _ _ Hk) in Hflat. discriminate.
Qed.

Lemma X5_flat_tree_stays_flat_witness :
  isStringArray (navOf (docWith [NavPage "intro.md"; NavPage "ref/commands/old.md"]))
  = true
  /\ noReferenceHeader defaultOpts = false
  /\ isStringArray
       (navOf (mkDocsYml (run (updateNav defaultOpts (envRef [mdFile "a.md"]))
                            (docWith [NavPage "intro.md";
                                      NavPage "ref/commands/old.md"])))) = true.
Proof.
  assert (H1 : isStringArray
                 (navOf (docWith [NavPage "intro.md"; NavPage "ref/commands/old.md"]))
               = true) by reflexivity.
  assert (H2 : noReferenceHeader defaultOpts = false) by reflexivity.
  split; [exact H1|]. split; [exact H2|].
  exact (X5_flat_tree_stays_flat defaultOpts (envRef [mdFile "a.md"]) _ H1 H2).
Defined.

(** X6: after a run that writes, the array that the next run will
    partition lists every discovered page, and each of its entries that
    starts with the reference directory and a separator is a discovered
    page: reference entries that were not discovered again are gone. *)
Theorem X6_written_tree_lists_discovered_pages opts env doc :
  written (run (updateNav opts env) doc) <> [] ->
  let header := referenceHeader opts in
  let nav' := navOf (mkDocsYml (run (updateNav opts env) doc)) in
  (forall d, d ∈ discovered env ->
             NavPage d ∈ partitionTarget header nav' (findRefDictIndex header nav'))
  /\ (forall e, e ∈ refFilepaths header (relReferenceDir env) nav' ->
                e ∈ NavPage <$> discovered env).
Proof.
  intros Hw. cbv zeta.
  destruct (updateNav_cases opts env doc) as [[_ E] | (_ & Hdoc & Hwr & _)].
  { rewrite E in Hw. cbn in Hw. congruence. }
  rewrite Hdoc. rewrite Hwr in Hw. apply reconcileDoc_write_iff in Hw.
  pose proof (reconcileDoc_target opts (mkDocsYmlPath env) (relMkDocsYmlPath env)
                (relReferenceDir env) doc (discovered env) Hw) as Ht.
  cbv zeta in Ht. unfold refFilepaths. rewrite partitionRefArray_fst.
  set (target' := partitionTarget _ _ _) in *.
  split.
  - intros d Hd.
    assert (Hin : NavPage d ∈ NavPage <$> discovered env)
      by (apply list_elem_of_fmap; eauto).
    destruct Ht as [-> | ->]; [apply elem_of_app; right|]; exact Hin.
  - intros e He. apply list_elem_of_In, filter_In in He as [He Hsw].
    apply list_elem_of_In in He.
    destruct Ht as [Ht | Ht]; rewrite Ht in He; [|exact He].
    apply elem_of_app in He as [He|He]; [|exact He].
    destruct (kept_not_reference _ _ _ _ He Hsw).
Qed.

Lemma X6_written_tree_lists_discovered_pages_witness :
  written (run (updateNav defaultOpts (envRef [mdFile "a.md"]))
             (docWith [NavPage "intro.md"; NavPage "ref/commands/old.md"])) <> []
  /\ (forall e,
        e ∈ refFilepaths (referenceHeader defaultOpts)
              (relReferenceDir (envRef [mdFile "a.md"]))
              (navOf (mkDocsYml
                        (run (updateNav defaultOpts (envRef [mdFile "a.md"]))
                           (docWith [NavPage "intro.md";
                                     NavPage "ref/commands/old.md"])))) ->
        e ∈ NavPage <$> discovered (envRef [mdFile "a.md"])).
Proof.
  assert (Hw : written (run (updateNav defaultOpts (envRef [mdFile "a.md"]))
                          (docWith [NavPage "intro.md"; NavPage "ref/commands/old.md"]))
               <> []) by (vm_compute; discriminate).
  split; [exact Hw|].
  exact (proj2 (X6_written_tree_lists_discovered_pages defaultOpts
                  (envRef [mdFile "a.md"]) _ Hw)).
Defined.

(** X7: a run of [updateNav] writes at most once; when it writes, it writes
    to the path of [mkdocs.yml] the document as it is in memory at the end
    of the run, and when it does not write, the document in memory is the
    one that was read. *)
Theorem X7_at_most_one_write opts env doc :
  (written (run (updateNav opts env) doc) = []
   /\ mkDocsYml (run (updateNav opts env) doc) = doc)
  \/ written (run (updateNav opts env) doc)
     = [(mkDocsYmlPath env, mkDocsYml (run (updateNav opts env) doc))].
Proof. exact (updateNav_outcome opts env doc). Qed.

(** X8: no run of [updateNav] changes the [docs_dir] key of the document,
    and no run removes the [nav] key of a document that has one. *)
Theorem X8_docs_dir_untouched opts env doc :
  docs_dir (mkDocsYml (run (updateNav opts env) doc)) = docs_dir doc
  /\ (is_Some (nav doc) -> is_Some (nav (mkDocsYml (run (updateNav opts env) doc)))).
Proof.
  destruct (updateNav_cases opts env doc) as [[_ ->] | (_ & -> & _ & _)];
    [split; [reflexivity | tauto]|].
  destruct (reconcileDoc_nav_cases opts (mkDocsYmlPath env) (relMkDocsYmlPath env)
              (relReferenceDir env) doc (discovered env))
    as (Hdir & [[-> _] | (_ & [(idx & _ & ->) | [(_ & _ & ->) | (_ & ->)]])]);
    (split; [first [exact Hdir | reflexivity] | eauto]).
Qed.

(** X9: the log tells the outcome.  With an empty listing the only line is
    the warning and nothing is written; otherwise the first line reports
    the discovered pages and the last line is the success line when the
    document was written and the no-changes line when it was not. *)
Theorem X9_log_tells_outcome opts env doc :
  let st := run (updateNav opts env) doc in
  (commandDocFileEnts env = []
   /\ logged st = [WarnNoReferenceDocs (NodePath.joinAbs (typeDocOutDir env) "commands")]
   /\ written st = [])
  \/ (commandDocFileEnts env <> []
      /\ head (logged st) = Some (DebugNewRefFilepaths (discovered env))
      /\ ((written st <> []
           /\ last (logged st) = Some (SuccessUpdated (relMkDocsYmlPath env)))
          \/ (written st = []
              /\ last (logged st) = Some (InfoNoChanges (relMkDocsYmlPath env))))).
Proof.
  cbv zeta.
  destruct (updateNav_cases opts env doc) as [[E ->] | (Hne & _ & -> & ->)];
    [left; auto|].
  right. split; [exact Hne|]. split; [reflexivity|].
  pose proof (reconcileDoc_last_log opts (mkDocsYmlPath env) (relMkDocsYmlPath env)
                (relReferenceDir env) doc (discovered env)) as Hlast.
  pose proof (reconcileDoc_write_iff opts (mkDocsYmlPath env) (relMkDocsYmlPath env)
                (relReferenceDir env) doc (discovered env)) as Hiff.
  set (st := reconcileDoc _ _ _ _ _ _) in *.
  assert (Hcons : forall y, last (logged st) = Some y ->
                            last (DebugNewRefFilepaths (discovered env) :: logged st)
                            = Some y).
  { intros y Hy. destruct (logged st); [discriminate | exact Hy]. }
  destruct (decide _) as [E|E].
  - right. split; [|apply Hcons; exact Hlast].
    destruct (written st) as [|w ws]; [reflexivity|].
    exfalso. apply (proj1 Hiff); [intros Hnil; discriminate Hnil | exact E].
  - left. split; [apply (proj2 Hiff); exact E | apply Hcons; exact Hlast].
Qed.

(** X10: when the listing of the [commands] directory has no entry,
    whatever the tree and the options, the run logs the warning, leaves
    the document in memory as it was read and writes nothing. *)
Theorem X10_empty_listing_skips opts env doc :
  commandDocFileEnts env = [] ->
  run (updateNav opts env) doc
  = {| mkDocsYml := doc;
       logged := [WarnNoReferenceDocs (NodePath.joinAbs (typeDocOutDir env) "commands")];
       written := [] |}.
Proof. exact (updateNav_empty_listing opts env doc). Qed.

Lemma X10_empty_listing_skips_witness :
  commandDocFileEnts (envRef []) = []
  /\ written (run (updateNav optsNoHeader (envRef []))
                (docWith [NavPage "ref/commands/old.md"])) = [].
Proof.
  assert (H : commandDocFileEnts (envRef []) = []) by reflexivity.
  split; [exact H|].
  rewrite (X10_empty_listing_skips optsNoHeader (envRef [])
             (docWith [NavPage "ref/commands/old.md"]) H).
  reflexivity.
Defined.

(** X11: when the output directory of TypeDoc is neither the directory of
    the input documents nor one of its ancestors, a second run on the
    document that the first run left, with the same listing, writes
    nothing and leaves the document as it is. *)
Theorem X11_second_run_writes_nothing opts env doc up down :
  NodePath.stripCommon (mkDocsDocsDir env) (typeDocOutDir env) = (up, down) ->
  down <> [] ->
  let first := run (updateNav opts env) doc in
  let second := run (updateNav opts env) (mkDocsYml first) in
  written second = [] /\ mkDocsYml second = mkDocsYml first.
Proof.
  intros H Hd first second. subst first second.
  pose proof (updateNav_twice opts env doc up down H Hd) as Hw.
  split; [exact Hw|].
  destruct (updateNav_outcome opts env (mkDocsYml (run (updateNav opts env) doc)))
    as [[_ Hdoc] | Hwr]; [exact Hdoc|].
  rewrite Hw in Hwr. discriminate.
Qed.

Lemma X11_second_run_writes_nothing_witness :
  NodePath.stripCommon (mkDocsDocsDir (envRef [mdFile "a.md"]))
    (typeDocOutDir (envRef [mdFile "a.md"])) = ([], ["ref"])
  /\ ["ref"] <> []
  /\ written (run (updateNav defaultOpts (envRef [mdFile "a.md"]))
                (mkDocsYml (run (updateNav defaultOpts (envRef [mdFile "a.md"]))
                              (docWith [NavPage "index.md"])))) = [].
Proof.
  assert (H1 : NodePath.stripCommon (mkDocsDocsDir (envRef [mdFile "a.md"]))
                 (typeDocOutDir (envRef [mdFile "a.md"])) = ([], ["ref"]))
    by reflexivity.
  assert (H2 : ["ref"] <> []) by discriminate.
  split; [exact H1|]. split; [exact H2|].
  exact (proj1 (X11_second_run_writes_nothing defaultOpts (envRef [mdFile "a.md"])
                  (docWith [NavPage "index.md"]) [] ["ref"] H1 H2)).
Defined.

(** X12: when the output directory of TypeDoc is neither the directory of
    the input documents nor one of its ancestors, the relative [commands]
    directory is the relative reference directory followed by
    [/commands], and every discovered page starts with the reference
    directory and a separator, so that [partitionRefArray] classifies it as
    a reference entry. *)
Theorem X12_discovered_pages_are_reference_entries env up down :
  NodePath.stripCommon (mkDocsDocsDir env) (typeDocOutDir env) = (up, down) ->
  down <> [] ->
  relCommandDir env = (relReferenceDir env ++ "/" ++ "commands")%string
  /\ forall d, d ∈ discovered env ->
       Lodash.startsWith (NavPage d) (relReferenceDir env ++ "/") = true.
Proof.
  intros H Hd. split; [exact (relCommandDir_below env up down H Hd)|].
  intros d Hin. exact (discovered_below env up down d H Hd Hin).
Qed.

Lemma X12_discovered_pages_are_reference_entries_witness :
  NodePath.stripCommon (mkDocsDocsDir (envRef [mdFile "a.md"]))
    (typeDocOutDir (envRef [mdFile "a.md"])) = ([], ["ref"])
  /\ ["ref"] <> []
  /\ relCommandDir (envRef [mdFile "a.md"]) = "ref/commands".
Proof.
  assert (H1 : NodePath.stripCommon (mkDocsDocsDir (envRef [mdFile "a.md"]))
                 (typeDocOutDir (envRef [mdFile "a.md"])) = ([], ["ref"]))
    by reflexivity.
  assert (H2 : ["ref"] <> []) by discriminate.
  split; [exact H1|]. split; [exact H2|].
  exact (proj1 (X12_discovered_pages_are_reference_entries (envRef [mdFile "a.md"])
                  [] ["ref"] H1 H2)).
Defined.

(** X13: when TypeDoc writes into the directory of the input documents
    itself, the relative reference directory is the empty string, no
    discovered page is recognised as a reference entry, and every run that
    discovers at least one page writes the document. *)
Theorem X13_same_directory_always_writes opts env doc :
  typeDocOutDir env = mkDocsDocsDir env ->
  discovered env <> [] ->
  relReferenceDir env = ""
  /\ written (run (updateNav opts env) doc) <> [].
Proof.
  intros Hsame HD.
  assert (Hrel : relReferenceDir env = "").
  { unfold relReferenceDir, NodePath.relative. rewrite Hsame, stripCommon_refl.
    reflexivity. }
  assert (Hcmd : relCommandDir env = "commands").
  { unfold relCommandDir, NodePath.relative, NodePath.joinAbs.
    rewrite Hsame, stripCommon_self_snoc. reflexivity. }
  split; [exact Hrel|].
  destruct (updateNav_reconcile opts env doc (discovered_nonempty env HD))
    as (_ & -> & _).
  apply reconcileDoc_write_iff. intros Hnil.
  rewrite symmetricDiff_nil_iff in Hnil.
  destruct (discovered env) as [|d D] eqn:ED; [congruence|].
  assert (Hd : d ∈ discovered env) by (rewrite ED; left).
  assert (Hin : NavPage d ∈ NavPage <$> d :: D) by left.
  apply Hnil, refFilepaths_elem in Hin as (s & Hs & Hpre).
  injection Hs as <-.
  apply collectRefFilepaths_elem in Hd as [n ->].
  rewrite Hrel, Hcmd in Hpre. discriminate Hpre.
Qed.

Lemma X13_same_directory_always_writes_witness :
  typeDocOutDir (envSameDir [mdFile "a.md"]) = mkDocsDocsDir (envSameDir [mdFile "a.md"])
  /\ discovered (envSameDir [mdFile "a.md"]) <> []
  /\ written (run (updateNav defaultOpts (envSameDir [mdFile "a.md"]))
                (docWith [NavPage "commands/a.md"])) <> [].
Proof.
  assert (H1 : typeDocOutDir (envSameDir [mdFile "a.md"])
               = mkDocsDocsDir (envSameDir [mdFile "a.md"])) by reflexivity.
  assert (H2 : discovered (envSameDir [mdFile "a.md"]) <> [])
    by (vm_compute; discriminate).
  split; [exact H1|]. split; [exact H2|].
  exact (proj2 (X13_same_directory_always_writes defaultOpts
                  (envSameDir [mdFile "a.md"]) (docWith [NavPage "commands/a.md"])
                  H1 H2)).
Defined.

(** X14: whatever the paths, the working directories and the keys of the
    two documents are, the output directory of TypeDoc and the directory
    of the input documents that lines 59 to 75 resolve are normalised: no
    segment is empty, [.] or [..], and none holds a separator.  The
    relative reference directory is the empty string exactly when the two
    directories are the same. *)
Theorem X14_resolved_directories_normalised host loc typeDocJson doc ents :
  let env := resolveEnv host loc typeDocJson doc ents in
  Forall (fun seg => plain seg = true) (typeDocOutDir env)
  /\ Forall (fun seg => plain seg = true) (mkDocsDocsDir env)
  /\ (relReferenceDir env = "" <-> mkDocsDocsDir env = typeDocOutDir env).
Proof.
  cbv zeta. destruct (resolveEnv_plain host loc typeDocJson doc ents) as [Hout Hdocs].
  split; [exact Hout|]. split; [exact Hdocs|].
  apply relative_empty_iff. exact Hout.
Qed.

(** X15: an [out] key of [typedoc.json] that is the empty string falls back
    to the default output path, as a missing key does; a [docs_dir] key of
    [mkdocs.yml] that is the empty string does not fall back to [docs]:
    the directory of the input documents is then the directory of
    [mkdocs.yml] itself, the parent of what a missing key resolves to. *)
Theorem X15_empty_out_and_docs_dir host loc entries :
  typeDocOutDirOf host loc {| out := Some "" |}
  = typeDocOutDirOf host loc {| out := None |}
  /\ mkDocsDocsDirOf host loc {| docs_dir := None; nav := entries |}
     = mkDocsDocsDirOf host loc {| docs_dir := Some ""; nav := entries |} ++ ["docs"].
Proof.
  split; [reflexivity|].
  unfold mkDocsDocsDirOf, resolveFrom, normalize. cbn [docs_dir default]. unfold id.
  change (isAbsolute "docs") with false. change (isAbsolute "") with false.
  change (split "docs") with ["docs"]. change (split "") with [""].
  cbv iota.
  rewrite !normalizeFrom_app. simpl. rewrite rev_involutive. reflexivity.
Qed.

(** X16: when [mkdocs.yml] and [typedoc.json] are named by absolute paths,
    the directories resolved do not depend on the [cwd] option nor on the
    working directory of the process. *)
Theorem X16_absolute_paths_ignore_cwd host loc typeDocJson doc cwd' processCwd' :
  isAbsolute (mkdocsYml loc) = true ->
  isAbsolute (typedocJson loc) = true ->
  let loc' := {| cwd := cwd'; mkdocsYml := mkdocsYml loc;
                 typedocJson := typedocJson loc |} in
  let host' := {| processCwd := processCwd'; readdir := readdir host;
                  relative := relative host;
                  DEFAULT_REL_TYPEDOC_OUT_PATH := DEFAULT_REL_TYPEDOC_OUT_PATH host |} in
  typeDocOutDirOf host' loc' typeDocJson = typeDocOutDirOf host loc typeDocJson
  /\ mkDocsDocsDirOf host' loc' doc = mkDocsDocsDirOf host loc doc.
Proof.
  intros Hm Ht. cbv zeta.
  unfold typeDocOutDirOf, mkDocsDocsDirOf, absolutePath, outOrDefault.
  cbn [mkdocsYml typedocJson cwd processCwd DEFAULT_REL_TYPEDOC_OUT_PATH].
  rewrite Hm, Ht. split; reflexivity.
Qed.

Lemma X16_absolute_paths_ignore_cwd_witness :
  isAbsolute (mkdocsYml locAbs) = true
  /\ isAbsolute (typedocJson locAbs) = true
  /\ typeDocOutDirOf
       {| processCwd := "/tmp"; readdir := readdir (hostWith []);
          relative := relative (hostWith []);
          DEFAULT_REL_TYPEDOC_OUT_PATH := DEFAULT_REL_TYPEDOC_OUT_PATH (hostWith []) |}
       {| cwd := "/other"; mkdocsYml := mkdocsYml locAbs;
          typedocJson := typedocJson locAbs |}
       {| out := Some "../docs/ref" |}
     = ["proj"; "docs"; "ref"].
Proof.
  assert (H1 : isAbsolute (mkdocsYml locAbs) = true) by reflexivity.
  assert (H2 : isAbsolute (typedocJson locAbs) = true) by reflexivity.
  split; [exact H1|]. split; [exact H2|].
  rewrite (proj1 (X16_absolute_paths_ignore_cwd (hostWith []) locAbs
                    {| out := Some "../docs/ref" |} (docWith []) "/other" "/tmp"
                    H1 H2)).
  reflexivity.
Defined.

(** X17: a discovered path, resolved from the directory of the input
    documents as MkDocs resolves the entries of [nav], is the file of that
    name in the [commands] directory of the output of TypeDoc: the entries
    written to the tree point at the generated pages. *)
Theorem X17_discovered_path_points_at_file host loc typeDocJson doc ents n :
  plain n = true ->
  let env := resolveEnv host loc typeDocJson doc ents in
  resolveFrom (mkDocsDocsDir env) (NodePath.join (relCommandDir env) n)
  = NodePath.joinAbs (NodePath.joinAbs (typeDocOutDir env) "commands") n.
Proof.
  intros Hn. cbv zeta.
  destruct (resolveEnv_plain host loc typeDocJson doc ents) as [Hout Hdocs].
  unfold relCommandDir. apply resolveFrom_join_relative; [exact Hdocs | | exact Hn].
  unfold NodePath.joinAbs. apply Forall_app. split; [exact Hout|].
  repeat constructor.
Qed.

Lemma X17_discovered_path_points_at_file_witness :
  plain "a.md" = true
  /\ resolveFrom (mkDocsDocsDir (resolveEnv (hostWith []) locProj
                                   {| out := Some "../gen/api" |} (docWith []) []))
       (NodePath.join
          (relCommandDir (resolveEnv (hostWith []) locProj
                            {| out := Some "../gen/api" |} (docWith []) []))
          "a.md")
     = ["gen"; "api"; "commands"; "a.md"].
Proof.
  assert (H : plain "a.md" = true) by reflexivity.
  split; [exact H|].
  rewrite (X17_discovered_path_points_at_file (hostWith []) locProj
             {| out := Some "../gen/api" |} (docWith []) [] "a.md" H).
  reflexivity.
Defined.

(** X18: a call from the locations, twice, with a [commands] directory that
    can be listed: the first call leaves [docs_dir] as it is, so the second
    call resolves the same directories; when the output directory of
    TypeDoc is neither the directory of the input documents nor one of its
    ancestors, both calls are fulfilled and the second writes nothing and
    leaves the document as the first left it. *)
Theorem X18_full_run_twice host opts loc typeDocJson doc ents up down :
  readdir host (NodePath.joinAbs (typeDocOutDirOf host loc typeDocJson) "commands")
  = Some ents ->
  NodePath.stripCommon (mkDocsDocsDirOf host loc doc)
    (typeDocOutDirOf host loc typeDocJson) = (up, down) ->
  down <> [] ->
  let first := runAt (updateNavAt host opts loc typeDocJson) doc in
  let second := runAt (updateNavAt host opts loc typeDocJson) (mkDocsYml (snd first)) in
  fst first = Fulfilled
  /\ fst second = Fulfilled
  /\ written (snd second) = []
  /\ mkDocsYml (snd second) = mkDocsYml (snd first).
Proof.
  cbv zeta. intros Hls H Hd.
  rewrite !(updateNavAt_run host opts loc typeDocJson _ ents Hls). cbn [fst snd].
  set (env := resolveEnv host loc typeDocJson doc ents) in *.
  assert (Hdir : docs_dir (mkDocsYml (run (updateNav opts env) doc)) = docs_dir doc).
  { destruct (updateNav_cases opts env doc) as [[_ ->] | (_ & -> & _ & _)];
      [reflexivity|].
    exact (proj1 (reconcileDoc_nav_cases opts _ _ _ doc _)). }
  rewrite (resolveEnv_docs_dir host loc typeDocJson doc _ ents Hdir). fold env.
  pose proof (updateNav_twice opts env doc up down H Hd) as Hw.
  split; [reflexivity|]. split; [reflexivity|]. split; [exact Hw|].
  destruct (updateNav_outcome opts env (mkDocsYml (run (updateNav opts env) doc)))
    as [[_ Hdoc] | Hwr]; [exact Hdoc|].
  rewrite Hw in Hwr. discriminate.
Qed.

Lemma X18_full_run_twice_witness :
  readdir (hostWith [mdFile "a.md"])
    (NodePath.joinAbs (typeDocOutDirOf (hostWith [mdFile "a.md"]) locProj
                         {| out := None |}) "commands")
  = Some [mdFile "a.md"]
  /\ NodePath.stripCommon
       (mkDocsDocsDirOf (hostWith [mdFile "a.md"]) locProj (docWith [NavPage "index.md"]))
       (typeDocOutDirOf (hostWith [mdFile "a.md"]) locProj {| out := None |})
     = ([], ["reference"])
  /\ ["reference"] <> []
  /\ written (snd (runAt (updateNavAt (hostWith [mdFile "a.md"]) defaultOpts locProj
                            {| out := None |})
                     (mkDocsYml
                        (snd (runAt (updateNavAt (hostWith [mdFile "a.md"]) defaultOpts
                                       locProj {| out := None |})
                                (docWith [NavPage "index.md"])))))) = [].
Proof.
  assert (H0 : readdir (hostWith [mdFile "a.md"])
                 (NodePath.joinAbs (typeDocOutDirOf (hostWith [mdFile "a.md"]) locProj
                                      {| out := None |}) "commands")
               = Some [mdFile "a.md"]) by reflexivity.
  assert (H1 : NodePath.stripCommon
                 (mkDocsDocsDirOf (hostWith [mdFile "a.md"]) locProj
                    (docWith [NavPage "index.md"]))
                 (typeDocOutDirOf (hostWith [mdFile "a.md"]) locProj {| out := None |})
               = ([], ["reference"])) by reflexivity.
  assert (H2 : ["reference"] <> []) by discriminate.
  split; [exact H0|]. split; [exact H1|]. split; [exact H2|].
  exact (proj1 (proj2 (proj2 (X18_full_run_twice (hostWith [mdFile "a.md"]) defaultOpts
                                locProj {| out := None |} (docWith [NavPage "index.md"])
                                [mdFile "a.md"] [] ["reference"] H0 H1 H2)))).
Defined.

(** X19: when the listing of the [commands] directory rejects, the call is
    rejected before anything is logged, and the document is neither
    changed in memory nor written. *)
Theorem X19_rejected_listing_is_clean host opts loc typeDocJson doc :
  readdir host (NodePath.joinAbs (typeDocOutDirOf host loc typeDocJson) "commands")
  = None ->
  runAt (updateNavAt host opts loc typeDocJson) doc
  = (Rejected, {| mkDocsYml := doc; logged := []; written := [] |}).
Proof.
  intros H. unfold runAt, updateNavAt, mbind, M_bind, readDoc, mret, M_ret.
  cbn [mkDocsYml initial]. rewrite H. reflexivity.
Qed.

Lemma X19_rejected_listing_is_clean_witness :
  readdir {| processCwd := "/home/dev"; readdir := fun _ => None;
             relative := fun _ p => p;
             DEFAULT_REL_TYPEDOC_OUT_PATH := "docs/reference" |}
    (NodePath.joinAbs
       (typeDocOutDirOf {| processCwd := "/home/dev"; readdir := fun _ => None;
                           relative := fun _ p => p;
                           DEFAULT_REL_TYPEDOC_OUT_PATH := "docs/reference" |}
          locProj {| out := None |}) "commands") = None
  /\ fst (runAt (updateNavAt {| processCwd := "/home/dev"; readdir := fun _ => None;
                                relative := fun _ p => p;
                                DEFAULT_REL_TYPEDOC_OUT_PATH := "docs/reference" |}
                   defaultOpts locProj {| out := None |})
            (docWith [NavPage "index.md"])) = Rejected.
Proof.
  split; [reflexivity|].
  rewrite (X19_rejected_listing_is_clean
             {| processCwd := "/home/dev"; readdir := fun _ => None;
                relative := fun _ p => p;
                DEFAULT_REL_TYPEDOC_OUT_PATH := "docs/reference" |}
             defaultOpts locProj {| out := None |} (docWith [NavPage "index.md"])
             eq_refl).
  reflexivity.
Defined.
